(** * The recipe-import job poller (ImportManager)

    A shallow embedding of the job-status polling client of the admin
    dashboard: [ImportManager.loadJobs], the adaptive refresh timer
    ([optimizeRefreshInterval]), [cleanup], the job renderer
    ([renderJobs]/[renderJob]), the counters ([updateJobStats]) and the URL
    validation of the import form ([validateUrls]).

    Conventions of the embedding.
    - A JavaScript string is a [string]; [toLowerCase] folds the ASCII
      letters only.
    - A JavaScript number of the payload is kept as its decimal literal
      ([number]: an integer mantissa and a count of decimals), on which
      [Math.round], [Math.max], [Math.min], [+] and [>] are exact and which
      [JSON.stringify] prints back in shortest form.
    - The status payload is typed by the Job data model; every key of an
      object may be absent ([None], JavaScript's [undefined]).  JSON [null]
      values and keys of a foreign type are outside the model.
    - The HTML that [renderJob] builds is kept as a record of the values the
      template interpolates, not as markup.
    - An [async] method is split at its [await]: the part that runs when it
      is called, and the part that runs when the awaited promise settles. *)

From Stdlib Require Import ZArith List String Ascii Bool Lia Arith Permutation.
From Stdlib Require Import DecimalString Sorted.
Import ListNotations.

Local Open Scope string_scope.
Local Open Scope Z_scope.

(** ** JavaScript strings *)

Module JsString.

Definition dquote : ascii := ascii_of_nat 34.
Definition backslash : ascii := ascii_of_nat 92.

Definition str (c : ascii) : string := String c EmptyString.

(** [s.length === 0] *)
Definition is_empty (s : string) : bool :=
  match s with EmptyString => true | String _ _ => false end.

(** [String.prototype.toLowerCase], on the ASCII letters.  The browser
    also folds letters outside ASCII (U+212A, the Kelvin sign, to [k]); the
    URLs are taken to be ASCII text. *)
Definition lower_char (c : ascii) : ascii :=
  let n := nat_of_ascii c in
  if ((65 <=? n) && (n <=? 90))%nat then ascii_of_nat (n + 32) else c.

Fixpoint toLowerCase (s : string) : string :=
  match s with
  | EmptyString => EmptyString
  | String c s' => String (lower_char c) (toLowerCase s')
  end.

(** [s.includes(sub)] *)
Fixpoint includes (s sub : string) : bool :=
  prefix sub s ||
  match s with
  | EmptyString => false
  | String _ s' => includes s' sub
  end.

(** [s.substring(0, n)] *)
Fixpoint take (n : nat) (s : string) : string :=
  match n, s with
  | S n', String c s' => String c (take n' s')
  | _, _ => EmptyString
  end.

(** [String.prototype.trim], on the ASCII white space.  The browser also
    trims U+00A0, U+FEFF, U+2028 and the other Unicode spaces. *)
Definition is_space (c : ascii) : bool :=
  let n := nat_of_ascii c in
  ((9 <=? n) && (n <=? 13) || (n =? 32))%nat.

Fixpoint trimStart (s : string) : string :=
  match s with
  | EmptyString => EmptyString
  | String c s' => if is_space c then trimStart s' else s
  end.

Fixpoint trimEnd (s : string) : string :=
  match s with
  | EmptyString => EmptyString
  | String c s' =>
      match trimEnd s' with
      | EmptyString => if is_space c then EmptyString else String c EmptyString
      | rest => String c rest
      end
  end.

Definition trim (s : string) : string := trimEnd (trimStart s).

(** [parts.join(sep)] *)
Fixpoint join (sep : string) (parts : list string) : string :=
  match parts with
  | [] => EmptyString
  | [p] => p
  | p :: rest => p ++ sep ++ join sep rest
  end.

End JsString.

(** ** JavaScript numbers, as decimal literals *)

Module Num.

(** [mkNum m k] is the number [m / 10^k]: the literal of the payload, kept
    exactly.  The browser holds the nearest IEEE-754 double, so two literals
    of one double are one number there and two here, and its sums are
    rounded where [add] is exact. *)
Record number := mkNum { mantissa : Z; decimals : nat }.

Definition pow10 (k : nat) : Z := 10 ^ Z.of_nat k.

Definition of_Z (z : Z) : number := mkNum z 0.
Definition zero : number := of_Z 0.

(** [Math.round(x)]: the nearest integer, ties toward +infinity. *)
Definition round (x : number) : Z :=
  (2 * mantissa x + pow10 (decimals x)) / (2 * pow10 (decimals x)).

(** [x > 0], [x < y], truthiness of a number. *)
Definition is_pos (x : number) : bool := 0 <? mantissa x.
Definition truthy (x : number) : bool := negb (mantissa x =? 0).
Definition ltb (x y : number) : bool :=
  mantissa x * pow10 (decimals y) <? mantissa y * pow10 (decimals x).

(** [Math.max(x, y)] and [Math.min(x, y)] *)
Definition max (x y : number) : number := if ltb x y then y else x.
Definition min (x y : number) : number := if ltb y x then y else x.

(** [x + y] *)
Definition add (x y : number) : number :=
  mkNum (mantissa x * pow10 (decimals y) + mantissa y * pow10 (decimals x))
        (decimals x + decimals y).

(** Trailing zero decimals are not part of a number's shortest literal. *)
Fixpoint strip (m : Z) (k : nat) : Z * nat :=
  match k with
  | O => (m, O)
  | S k' => if m mod 10 =? 0 then strip (m / 10) k' else (m, k)
  end.

Definition dec (n : Z) : string :=
  NilZero.string_of_uint (N.to_uint (Z.to_N n)).

Fixpoint zeros (n : nat) : string :=
  match n with O => EmptyString | S n' => String "0" (zeros n') end.

Definition pad (k : nat) (s : string) : string :=
  (zeros (k - String.length s) ++ s)%string.

(** [Number.prototype.toString], also what [JSON.stringify] prints. *)
Definition toString (x : number) : string :=
  let '(m, k) := strip (mantissa x) (decimals x) in
  let a := Z.abs m in
  let sign := if m <? 0 then "-" else EmptyString in
  match k with
  | O => sign ++ dec a
  | S _ => sign ++ dec (a / pow10 k) ++ "." ++ pad k (dec (a mod pow10 k))
  end%string.

End Num.

(** ** JSON.stringify *)

Module JSON.
Import JsString.

Definition hex_digit (n : nat) : ascii :=
  match get n "0123456789abcdef" with Some c => c | None => "0"%char end.

(** QuoteJSONString, one code unit. *)
Definition quote_char (c : ascii) : string :=
  let n := nat_of_ascii c in
  if (n =? 34)%nat then String backslash (str dquote)
  else if (n =? 92)%nat then String backslash (str backslash)
  else if (n =? 8)%nat then String backslash "b"
  else if (n =? 9)%nat then String backslash "t"
  else if (n =? 10)%nat then String backslash "n"
  else if (n =? 12)%nat then String backslash "f"
  else if (n =? 13)%nat then String backslash "r"
  else if (n <? 32)%nat then
    String backslash ("u00" ++ String (hex_digit (n / 16)) (str (hex_digit (n mod 16))))
  else str c.

Fixpoint quote_body (s : string) : string :=
  match s with
  | EmptyString => EmptyString
  | String c s' => quote_char c ++ quote_body s'
  end.

Definition quote (s : string) : string :=
  String dquote (quote_body s ++ str dquote).

(** One property of an object: a key whose value is [undefined] is
    left out. *)
Definition property (key : string) (value : option string) : list string :=
  match value with
  | Some v => [quote key ++ ":" ++ v]
  | None => []
  end.

Definition object (properties : list string) : string :=
  "{" ++ join "," properties ++ "}".

Definition array (elements : list string) : string :=
  "[" ++ join "," elements ++ "]".

End JSON.

(** ** The Job data model

    The payload of [GET /recipes/ingest/status] is an array of jobs.  Each
    key may be absent. *)

Module UrlProgress.
Record t := mk {
  url : option string;
  status : option string;
  stage : option string;
  local_percent : option Num.number
}.
End UrlProgress.

Module Progress.
Record t := mk {
  total : option Num.number;
  success : option Num.number;
  failed : option Num.number;
  stage : option string;
  urls : option (list UrlProgress.t)
}.
(** The object [{}]. *)
Definition empty : t := mk None None None None None.
End Progress.

Module Result.
Record t := mk {
  indexed : option Num.number;
  total_urls : option Num.number;
  success : option Num.number;
  failed : option Num.number
}.
Definition empty : t := mk None None None None.
End Result.

Module Job.
Record t := mk {
  job_id : option string;
  status : option string;
  progress_percent : option Num.number;
  progress : option Progress.t;
  result : option Result.t;
  detail : option string
}.

(** [j.status === s] *)
Definition status_is (s : string) (j : t) : bool :=
  match status j with
  | Some s' => (s' =? s)%string
  | None => false
  end.

(** [j.status === 'running' || j.status === 'queued'] *)
Definition is_active (j : t) : bool :=
  status_is "running" j || status_is "queued" j.

(** The closed set of statuses of the data model. *)
Definition known_status (j : t) : bool :=
  status_is "running" j || status_is "queued" j ||
  status_is "completed" j || status_is "failed" j.
End Job.

(** ** The content fingerprint of [loadJobs]

    [JSON.stringify(jobs.map(j => ({ id: j.job_id, status: j.status,
    progress: j.progress_percent, stage: j.progress?.stage })))] *)

Module Projection.
Record t := mk {
  id : option string;
  status : option string;
  progress : option Num.number;
  stage : option string
}.
End Projection.

(** [j.progress?.stage] *)
Definition currentStage (j : Job.t) : option string :=
  match Job.progress j with
  | Some p => Progress.stage p
  | None => None
  end.

Definition project (j : Job.t) : Projection.t :=
  {| Projection.id := Job.job_id j;
     Projection.status := Job.status j;
     Projection.progress := Job.progress_percent j;
     Projection.stage := currentStage j |}.

Definition stringify_projection (p : Projection.t) : string :=
  JSON.object
    (JSON.property "id" (option_map JSON.quote (Projection.id p)) ++
     JSON.property "status" (option_map JSON.quote (Projection.status p)) ++
     JSON.property "progress" (option_map Num.toString (Projection.progress p)) ++
     JSON.property "stage" (option_map JSON.quote (Projection.stage p))).

Definition stringify_projections (ps : list Projection.t) : string :=
  JSON.array (map stringify_projection ps).

Definition jobsHash (jobs : list Job.t) : string :=
  stringify_projections (map project jobs).

(** The projection the specification describes, with the progress
    percentage rounded. *)
Definition rounded_projection (j : Job.t)
  : option string * option string * option Z * option string :=
  (Projection.id (project j), Projection.status (project j),
   option_map Num.round (Projection.progress (project j)),
   Projection.stage (project j)).

(** ** Completions: a value, or a thrown error (kept by its [name]) *)

Inductive Completion (A : Type) : Type :=
| Normal (a : A)
| Throw (name : string).
Arguments Normal {A} a.
Arguments Throw {A} name.

(** ** updateJobStats *)

Record Stats := mkStats { completed : nat; running : nat; queued : nat }.

Definition count_status (s : string) (jobs : list Job.t) : nat :=
  List.length (filter (Job.status_is s) jobs).

Definition jobStats (jobs : list Job.t) : Stats :=
  {| completed := count_status "completed" jobs;
     running := count_status "running" jobs;
     queued := count_status "queued" jobs |}.

Definition noStats : Stats := {| completed := 0; running := 0; queued := 0 |}.

(** ** renderJob and renderJobs

    The cards are kept as the values that the HTML template interpolates;
    the SVG and emoji icons are left out. *)

Module Render.
Import JsString.

Record Badge := mkBadge {
  statusText : string;
  statusClass : string;
  cardClass : string
}.

Definition unknownBadge : Badge :=
  mkBadge "Sconosciuto" "text-gray-600 bg-gray-50 border-gray-200"
          "border-l-4 border-l-gray-400".

(** [switch (status) { case 'running': ... default: ... }] *)
Definition badge (status : option string) : Badge :=
  match status with
  | Some s =>
      if (s =? "running")%string then
        mkBadge "In Corso" "text-oneui-darkblue bg-oneui-lightblue border-oneui-blue"
                "step-running border-l-4 border-l-oneui-blue"
      else if (s =? "queued")%string then
        mkBadge "In Coda" "text-yellow-700 bg-yellow-100 border-yellow-300"
                "border-l-4 border-l-yellow-400"
      else if (s =? "completed")%string then
        mkBadge "Completato" "text-green-700 bg-green-100 border-green-300"
                "step-completed border-l-4 border-l-green-500"
      else if (s =? "failed")%string then
        mkBadge "Fallito" "text-red-700 bg-red-100 border-red-300"
                "step-failed border-l-4 border-l-red-500"
      else unknownBadge
  | None => unknownBadge
  end.

(** [stageDescriptions]: stage token, name, description. *)
Definition stageDescriptions : list (string * (string * string)) :=
  [ ("queued", ("In Coda", "Preparazione elaborazione"));
    ("running", ("Elaborazione", "Sistema attivo"));
    ("download", ("Download", "Scaricamento contenuti"));
    ("extract_audio", ("Estrazione Audio", "Conversione traccia audio"));
    ("stt", ("Riconoscimento Vocale", "Trascrizione audio in testo"));
    ("parse_recipe", ("Analisi Ricetta", "Estrazione ingredienti e procedimento"));
    ("embedding", ("Vettorizzazione", "Creazione embeddings semantici"));
    ("vectorizing", ("Embedding AI", "Elaborazione con modelli linguistici"));
    ("ingesting", ("Ingest Database", "Caricamento nel database vettoriale"));
    ("indexing", ("Indicizzazione", "Creazione indici di ricerca"));
    ("persisting", ("Salvataggio", "Persistenza dati finale"));
    ("done", ("Completato", "Elaborazione terminata"));
    ("error", ("Errore", "Problema durante elaborazione")) ].

(** [stageDescriptions[stage]], among the keys that the object lists.  In
    the browser a stage that names a member of [Object.prototype]
    ([constructor], [toString], ...) finds that member; the stages of the
    pipeline are no such names. *)
Fixpoint lookup (key : string) (table : list (string * (string * string)))
  : option (string * string) :=
  match table with
  | [] => None
  | (k, v) :: rest => if (k =? key)%string then Some v else lookup key rest
  end.

(** A value interpolated in a template literal. *)
Definition interpolate (v : option string) : string :=
  match v with Some s => s | None => "undefined" end.

(** [a || b] on strings that may be absent. *)
Definition or_else (a b : option string) : option string :=
  match a with
  | Some s => if is_empty s then b else a
  | None => b
  end.

Definition default {A} (d : A) (v : option A) : A :=
  match v with Some a => a | None => d end.

Definition clamp (x : Num.number) : Num.number :=
  Num.max Num.zero (Num.min (Num.of_Z 100) x).

Record UrlView := mkUrlView {
  rowClass : string;
  borderClass : string;
  urlText : string;
  urlStageName : string;
  urlStageDesc : string;
  urlPercent : option Z;
  urlBar : option Num.number
}.

Definition renderUrl (u : UrlProgress.t) : UrlView :=
  let '(name, desc) :=
    match lookup (interpolate (UrlProgress.stage u)) stageDescriptions with
    | Some (n, d) => (Some n, d)
    | None => (or_else (UrlProgress.stage u) (UrlProgress.status u), EmptyString)
    end in
  let status_is s :=
    match UrlProgress.status u with
    | Some s' => (s' =? s)%string
    | None => false
    end in
  let '(cls, border) :=
    if status_is "running" then ("step-running", "border-l-oneui-blue")
    else if status_is "success" then ("step-completed", "border-l-green-500")
    else if status_is "failed" then ("step-failed", "border-l-red-500")
    else ("bg-material-surfaceContainer", "border-l-gray-400") in
  let shown :=
    match UrlProgress.local_percent u with
    | Some p => if Num.truthy p then Some p else None
    | None => None
    end in
  {| rowClass := cls;
     borderClass := border;
     urlText := interpolate (UrlProgress.url u);
     urlStageName := interpolate name;
     urlStageDesc := desc;
     urlPercent := option_map Num.round shown;
     urlBar := if status_is "running" then option_map clamp shown else None |}.

Record UrlSection := mkUrlSection {
  shownUrls : nat;
  urlRows : list UrlView;
  hiddenUrls : option nat
}.

Record ProgressView := mkProgressView {
  stageName : string;
  stageDesc : string;
  percent : Z;
  processed : Num.number;
  totalUrls : Num.number;
  barWidth : Num.number;
  quickStats : option (Num.number * option Num.number);
  urlSection : option UrlSection
}.

Definition renderProgress (status : option string) (progress_percent : Num.number)
           (progress : Progress.t) : ProgressView :=
  let total := default Num.zero (Progress.total progress) in
  let success := default Num.zero (Progress.success progress) in
  let failed := default Num.zero (Progress.failed progress) in
  let stage := default EmptyString (Progress.stage progress) in
  let urls := default [] (Progress.urls progress) in
  let '(name, desc) :=
    match lookup stage stageDescriptions with
    | Some nd => nd
    | None => (if is_empty stage then "In Corso" else stage, EmptyString)
    end in
  let running :=
    match status with Some s => (s =? "running")%string | None => false end in
  {| stageName := name;
     stageDesc := desc;
     percent := Num.round progress_percent;
     processed := Num.add success failed;
     totalUrls := total;
     barWidth := clamp progress_percent;
     quickStats :=
       if Num.is_pos success || Num.is_pos failed
       then Some (success, if Num.is_pos failed then Some failed else None)
       else None;
     urlSection :=
       if running && (0 <? List.length urls)%nat then
         let allUrls := firstn 10 urls in
         if (0 <? List.length allUrls)%nat then
           Some {| shownUrls := List.length allUrls;
                   urlRows := map renderUrl allUrls;
                   hiddenUrls :=
                     if (10 <? List.length urls)%nat
                     then Some (List.length urls - 10)%nat else None |}
         else None
       else None |}.

Record ResultView := mkResultView {
  savedRecipes : Num.number;
  processedUrls : Num.number;
  successes : Num.number;
  failures : option Num.number;
  searchable : bool
}.

Definition renderResult (result : Result.t) : ResultView :=
  let indexed := default Num.zero (Result.indexed result) in
  let total_urls := default Num.zero (Result.total_urls result) in
  let success := default Num.zero (Result.success result) in
  let failed := default Num.zero (Result.failed result) in
  {| savedRecipes := indexed;
     processedUrls := total_urls;
     successes := success;
     failures := if Num.is_pos failed then Some failed else None;
     searchable := Num.is_pos indexed |}.

Record JobView := mkJobView {
  truncatedId : string;
  jobBadge : Badge;
  progressSection : option ProgressView;
  resultSection : option ResultView;
  errorDetail : option string
}.

(** [renderJob(job)].  [job_id.substring(0, 8)] is the one expression
    that throws on a job of the data model: when [job_id] is absent. *)
Definition renderJob (job : Job.t) : Completion JobView :=
  let progress_percent := default Num.zero (Job.progress_percent job) in
  match Job.job_id job with
  | None => Throw "TypeError"
  | Some job_id =>
      Normal
        {| truncatedId := take 8 job_id;
           jobBadge := badge (Job.status job);
           progressSection :=
             option_map (renderProgress (Job.status job) progress_percent)
                        (Job.progress job);
           resultSection := option_map renderResult (Job.result job);
           errorDetail :=
             match Job.detail job with
             | Some d =>
                 if negb (is_empty d) && Job.status_is "failed" job
                 then Some d else None
             | None => None
             end |}
  end.

(** [statusOrder[job.status]]; [None] is [undefined]. *)
Definition statusOrder (status : option string) : option Z :=
  match status with
  | Some s =>
      if (s =? "running")%string then Some 0
      else if (s =? "queued")%string then Some 1
      else if (s =? "completed")%string then Some 2
      else if (s =? "failed")%string then Some 3
      else None
  | None => None
  end.

(** The comparator of [jobs.sort]; [None] is [NaN]. *)
Definition compareJobs (a b : Job.t) : option Z :=
  match statusOrder (Job.status a), statusOrder (Job.status b) with
  | Some x, Some y => Some (x - y)
  | _, _ => None
  end.

(** [Array.prototype.sort] reads a [NaN] from the comparator as [+0]. *)
Definition comes_after (a b : Job.t) : bool :=
  match compareJobs a b with
  | Some d => 0 <? d
  | None => false
  end.

(** A stable insertion sort stands for [Array.prototype.sort]. *)
Fixpoint insert (x : Job.t) (sorted : list Job.t) : list Job.t :=
  match sorted with
  | [] => [x]
  | y :: rest => if comes_after x y then y :: insert x rest else x :: sorted
  end.

Definition sort (jobs : list Job.t) : list Job.t := fold_right insert [] jobs.

(** [array.map(f)], stopping at the first throw. *)
Fixpoint mapThrowing {A B} (f : A -> Completion B) (l : list A) : Completion (list B) :=
  match l with
  | [] => Normal []
  | a :: rest =>
      match f a with
      | Throw e => Throw e
      | Normal b =>
          match mapThrowing f rest with
          | Throw e => Throw e
          | Normal bs => Normal (b :: bs)
          end
      end
  end.

(** What ends up in [#jobsListContent]. *)
Inductive Content :=
| EmptyState
| JobCards (cards : list JobView).

(** [renderJobs(jobs)]: the array as [sort] leaves it (it is sorted in
    place) and the new content. *)
Definition renderJobs (jobs : list Job.t) : Completion (list Job.t * Content) :=
  match jobs with
  | [] => Normal (jobs, EmptyState)
  | _ :: _ =>
      let sortedJobs := sort jobs in
      match mapThrowing renderJob sortedJobs with
      | Throw e => Throw e
      | Normal cards => Normal (sortedJobs, JobCards cards)
      end
  end.

End Render.

(** ** The state of an ImportManager and what it does to the page *)

(** What a method does that is visible outside the manager. *)
Inductive Effect :=
| FetchStatus                              (* fetch(`${apiBaseUrl}/recipes/ingest/status`, {signal}) *)
| RenderJobs (jobs : list Job.t)           (* this.renderJobs(jobs) is called *)
| RenderEmptyState                         (* this.renderEmptyState() is called *)
| UpdateStats (stats : Stats)              (* this.updateStats(stats) *)
| ShowNotification (message type : string) (* this.showNotification(message, type) *)
| ConsoleError                             (* console.error(...) *)
| SetInterval (ms : Z)                     (* setInterval(() => this.loadJobs(), ms) *)
| ClearInterval                            (* clearInterval(this.refreshInterval) *)
| LoadDatabaseStats                        (* this.loadDatabaseStats() *)
| SetRefreshLoading (loading : bool)       (* this.setRefreshLoading(loading) *)
| Abort.                                   (* this._abortController.abort() *)

Record State := mkState {
  refreshInterval : option Z;   (* null, or the running interval timer, by its period *)
  lastJobsHash : option string; (* null, or the stored fingerprint *)
  hasActiveJobs : bool;
  _isRefreshing : bool;
  aborted : bool;               (* this._abortController.signal.aborted *)
  counters : option Stats;      (* the counter elements, once updateStats wrote them *)
  inflight : nat                (* status requests awaiting their response *)
}.

Definition set_refreshInterval (v : option Z) (st : State) : State :=
  mkState v (lastJobsHash st) (hasActiveJobs st) (_isRefreshing st)
          (aborted st) (counters st) (inflight st).
Definition set_lastJobsHash (v : option string) (st : State) : State :=
  mkState (refreshInterval st) v (hasActiveJobs st) (_isRefreshing st)
          (aborted st) (counters st) (inflight st).
Definition set_hasActiveJobs (v : bool) (st : State) : State :=
  mkState (refreshInterval st) (lastJobsHash st) v (_isRefreshing st)
          (aborted st) (counters st) (inflight st).
Definition set_isRefreshing (v : bool) (st : State) : State :=
  mkState (refreshInterval st) (lastJobsHash st) (hasActiveJobs st) v
          (aborted st) (counters st) (inflight st).
Definition set_aborted (v : bool) (st : State) : State :=
  mkState (refreshInterval st) (lastJobsHash st) (hasActiveJobs st)
          (_isRefreshing st) v (counters st) (inflight st).
Definition set_counters (v : option Stats) (st : State) : State :=
  mkState (refreshInterval st) (lastJobsHash st) (hasActiveJobs st)
          (_isRefreshing st) (aborted st) v (inflight st).
Definition set_inflight (v : nat) (st : State) : State :=
  mkState (refreshInterval st) (lastJobsHash st) (hasActiveJobs st)
          (_isRefreshing st) (aborted st) (counters st) v.

(** ** A monad for method bodies: state, effects and exceptions.
    The state survives a throw, as the fields of [this] do. *)

Definition M (A : Type) : Type := State -> Completion A * State * list Effect.

Definition ret {A} (a : A) : M A := fun st => (Normal a, st, []).

Definition bind {A B} (m : M A) (f : A -> M B) : M B :=
  fun st =>
    match m st with
    | (Normal a, st1, e1) =>
        match f a st1 with
        | (r, st2, e2) => (r, st2, (e1 ++ e2)%list)
        end
    | (Throw name, st1, e1) => (Throw name, st1, e1)
    end.

Definition throw {A} (name : string) : M A := fun st => (Throw name, st, []).
Definition emit (e : Effect) : M unit := fun st => (Normal tt, st, [e]).
Definition get : M State := fun st => (Normal st, st, []).
Definition modify (f : State -> State) : M unit := fun st => (Normal tt, f st, []).

(** [try { body } catch (error) { handler(error.name) }] *)
Definition try_catch {A} (body : M A) (handler : string -> M A) : M A :=
  fun st =>
    match body st with
    | (Normal a, st1, e1) => (Normal a, st1, e1)
    | (Throw name, st1, e1) =>
        match handler name st1 with
        | (r, st2, e2) => (r, st2, (e1 ++ e2)%list)
        end
    end.

(** [try { body } finally { final }] *)
Definition finally {A} (body : M A) (final : M unit) : M A :=
  fun st =>
    match body st with
    | (r, st1, e1) =>
        match final st1 with
        | (Normal _, st2, e2) => (r, st2, (e1 ++ e2)%list)
        | (Throw name, st2, e2) => (Throw name, st2, (e1 ++ e2)%list)
        end
    end.

Definition when (b : bool) (m : M unit) : M unit := if b then m else ret tt.

Declare Scope method_scope.
Delimit Scope method_scope with method.
Notation "x <- m ;; k" := (bind m (fun x => k))
  (at level 61, m at next level, right associativity) : method_scope.
Notation "m ;; k" := (bind m (fun _ => k))
  (at level 61, right associativity) : method_scope.
Local Open Scope method_scope.

(** The state and effects a method leaves behind. *)
Definition exec {A} (m : M A) (st : State) : State * list Effect :=
  match m st with (_, st', effects) => (st', effects) end.

(** ** The methods of ImportManager that the poller is made of *)

(** How the awaited [fetch] (and the [response.json()] after it) settles. *)
Inductive Body :=
| JobArray (jobs : list Job.t)   (* the body parses to an array of jobs *)
| NotJobs (error : string).      (* response.json() rejects, or jobs.map throws *)

Inductive Settled :=
| Responded (status : Z) (body : Body)
| Rejected (error : string).     (* "TypeError" off the network, "AbortError" when aborted *)

(** [response.ok] *)
Definition ok (status : Z) : bool := (200 <=? status) && (status <=? 299).

(** [this.lastJobsHash !== hash] *)
Definition differs (stored : option string) (hash : string) : bool :=
  match stored with
  | Some h => negb (h =? hash)%string
  | None => true
  end.

Definition emptyHash : string := "empty".
Definition fast : Z := 1500.
Definition slow : Z := 10000.

Definition updateStats (stats : Stats) : M unit :=
  emit (UpdateStats stats) ;;
  modify (set_counters (Some stats)).

Definition updateJobStats (jobs : list Job.t) : M unit :=
  updateStats (jobStats jobs).

Definition showNotification (message type : string) : M unit :=
  emit (ShowNotification message type).

Definition renderEmptyState : M unit := emit RenderEmptyState.

(** [this.renderJobs(jobs)]; the result is [jobs] as the call leaves it. *)
Definition renderJobs (jobs : list Job.t) : M (list Job.t) :=
  emit (RenderJobs jobs) ;;
  when (match jobs with [] => true | _ => false end) renderEmptyState ;;
  match Render.renderJobs jobs with
  | Normal (sortedJobs, _) => ret sortedJobs
  | Throw e => throw e
  end.

Definition stopPeriodicRefresh : M unit :=
  st <- get ;;
  match refreshInterval st with
  | Some _ => emit ClearInterval ;; modify (set_refreshInterval None)
  | None => ret tt
  end.

Definition optimizeRefreshInterval : M unit :=
  stopPeriodicRefresh ;;
  st <- get ;;
  if hasActiveJobs st
  then emit (SetInterval fast) ;; modify (set_refreshInterval (Some fast))
  else emit (SetInterval slow) ;; modify (set_refreshInterval (Some slow)).

Definition startPeriodicRefresh : M unit := optimizeRefreshInterval.

(** [loadJobs], up to its [await fetch(...)]: the guard, then the first
    statements of the [try] block.  The result tells whether [fetch] was
    called. *)
Definition loadJobs_enter : M bool :=
  st <- get ;;
  if _isRefreshing st then ret false
  else
    modify (set_isRefreshing true) ;;
    emit (SetRefreshLoading true) ;;
    emit FetchStatus ;;
    ret true.

(** The rest of the [try] block, once the fetch has settled. *)
Definition loadJobs_try (r : Settled) : M unit :=
  match r with
  | Rejected error => throw error
  | Responded status body =>
      if negb (ok status) then
        if status =? 404 then
          st <- get ;;
          when (differs (lastJobsHash st) emptyHash)
               (renderEmptyState ;;
                updateStats noStats ;;
                modify (set_lastJobsHash (Some emptyHash)) ;;
                modify (set_hasActiveJobs false) ;;
                optimizeRefreshInterval)
        else throw "Error"
      else
        match body with
        | NotJobs error => throw error
        | JobArray jobs =>
            let hash := jobsHash jobs in
            let activeJobs := filter Job.is_active jobs in
            st <- get ;;
            let hadActiveJobs := hasActiveJobs st in
            modify (set_hasActiveJobs (0 <? List.length activeJobs)%nat) ;;
            jobs <- (if differs (lastJobsHash st) hash
                     then sortedJobs <- renderJobs jobs ;;
                          modify (set_lastJobsHash (Some hash)) ;;
                          ret sortedJobs
                     else ret jobs) ;;
            updateJobStats jobs ;;
            st <- get ;;
            when (negb (Bool.eqb hadActiveJobs (hasActiveJobs st)))
                 optimizeRefreshInterval ;;
            when (existsb (Job.status_is "completed") jobs)
                 (emit LoadDatabaseStats)
        end
  end.

(** [catch (error) { if (error.name !== 'AbortError') { ... } }] *)
Definition loadJobs_catch (error : string) : M unit :=
  when (negb (error =? "AbortError")%string)
       (emit ConsoleError ;;
        showNotification "Errore nel caricamento dei job" "destructive").

(** [finally { this._isRefreshing = false; this.setRefreshLoading(false); }] *)
Definition loadJobs_finally : M unit :=
  modify (set_isRefreshing false) ;;
  emit (SetRefreshLoading false).

(** [loadJobs], from the moment its fetch settles. *)
Definition loadJobs_resume (r : Settled) : M unit :=
  finally (try_catch (loadJobs_try r) loadJobs_catch) loadJobs_finally.

(** A call of [loadJobs()].  A fetch on an aborted signal sends nothing and
    rejects at once; any other fetch is a request on the wire. *)
Definition loadJobs : M unit :=
  fetching <- loadJobs_enter ;;
  when fetching
       (st <- get ;;
        if aborted st then loadJobs_resume (Rejected "AbortError")
        else modify (fun st => set_inflight (S (inflight st)) st)).

(** [cleanup()].  The teardown callbacks, [activeJobs] and
    [selectedShortcodes] belong to the page, not to the poller. *)
Definition cleanup : M unit :=
  stopPeriodicRefresh ;;
  emit Abort ;;
  modify (set_aborted true) ;;
  modify (set_isRefreshing false) ;;
  modify (set_lastJobsHash None).

(** The fields as the constructor assigns them. *)
Definition fresh : State :=
  {| refreshInterval := None;
     lastJobsHash := None;
     hasActiveJobs := false;
     _isRefreshing := false;
     aborted := false;
     counters := None;
     inflight := 0 |}.

(** [new ImportManager()]: [startPeriodicRefresh()], then
    [loadInitialJobs()] which calls [loadJobs()]. *)
Definition constructor : M unit :=
  startPeriodicRefresh ;;
  loadJobs.

Definition constructed : State := fst (exec constructor fresh).

(** ** The event loop around the poller *)

Inductive Event :=
| TimerFires                 (* the interval timer runs its callback *)
| LoadJobsCalled             (* the refresh button, or handleSubmit after an import *)
| FetchSettles (r : Settled) (* the response of the request on the wire arrives *)
| PageCloses.                (* beforeunload or pagehide: importManager.cleanup() *)

(** Aborting rejects the pending fetches with an AbortError; the suspended
    calls run their [catch] and [finally] before any other task. *)
Fixpoint reject_pending (n : nat) : M unit :=
  match n with
  | O => ret tt
  | S n' => loadJobs_resume (Rejected "AbortError") ;; reject_pending n'
  end.

Definition step (e : Event) (st : State) : option (State * list Effect) :=
  match e with
  | TimerFires =>
      match refreshInterval st with
      | Some _ => Some (exec loadJobs st)
      | None => None
      end
  | LoadJobsCalled => Some (exec loadJobs st)
  | FetchSettles r =>
      match inflight st with
      | O => None
      | S n =>
          let r := if aborted st then Rejected "AbortError" else r in
          Some (exec (loadJobs_resume r) (set_inflight n st))
      end
  | PageCloses =>
      Some (exec (cleanup ;;
                  st <- get ;;
                  modify (set_inflight 0) ;;
                  reject_pending (inflight st)) st)
  end.

Fixpoint run (events : list Event) (st : State) : option (State * list Effect) :=
  match events with
  | [] => Some (st, [])
  | e :: rest =>
      match step e st with
      | None => None
      | Some (st1, e1) =>
          match run rest st1 with
          | None => None
          | Some (st2, e2) => Some (st2, (e1 ++ e2)%list)
          end
      end
  end.

(** A payload conforms to the data model when every job carries its
    [job_id]. *)
Definition has_id (j : Job.t) : bool :=
  match Job.job_id j with Some _ => true | None => false end.

Definition conforming (e : Event) : bool :=
  match e with
  | FetchSettles (Responded _ (JobArray jobs)) => forallb has_id jobs
  | _ => true
  end.

(** The states of a manager, whatever the events and the payloads. *)
Inductive reachable : State -> Prop :=
| reachable_constructed : reachable constructed
| reachable_step st e st' effects :
    reachable st ->
    step e st = Some (st', effects) ->
    reachable st'.

(** The states of a manager that has received conforming payloads only:
    so far no render has thrown. *)
Inductive reachable_conforming : State -> Prop :=
| conforming_constructed : reachable_conforming constructed
| conforming_step st e st' effects :
    reachable_conforming st ->
    conforming e = true ->
    step e st = Some (st', effects) ->
    reachable_conforming st'.

(** Counting in a list of effects. *)
Definition is_render (e : Effect) : bool :=
  match e with RenderJobs _ => true | _ => false end.
Definition is_empty_render (e : Effect) : bool :=
  match e with RenderEmptyState => true | _ => false end.
Definition is_notification (e : Effect) : bool :=
  match e with ShowNotification _ _ => true | _ => false end.
Definition is_arming (e : Effect) : bool :=
  match e with SetInterval _ => true | _ => false end.
Definition is_stats (e : Effect) : bool :=
  match e with UpdateStats _ => true | _ => false end.
Definition is_console (e : Effect) : bool :=
  match e with ConsoleError => true | _ => false end.

Definition count (p : Effect -> bool) (effects : list Effect) : nat :=
  List.length (filter p effects).

(** A refresh that goes through: [loadJobs()] is called and its fetch
    settles. *)
Definition poll (r : Settled) : list Event := [LoadJobsCalled; FetchSettles r].

Definition polls (rs : list Settled) : list Event := flat_map poll rs.

Definition found (jobs : list Job.t) : Settled := Responded 200 (JobArray jobs).
Definition notFound : Settled := Responded 404 (NotJobs "SyntaxError").

(** [activeJobs.length > 0], as [loadJobs] computes it. *)
Definition anyActive (jobs : list Job.t) : bool :=
  (0 <? List.length (filter Job.is_active jobs))%nat.

(** The error, if any, that the [try] block of [loadJobs] ends with. *)
Definition thrown (r : Settled) (st : State) : option string :=
  match loadJobs_try r st with
  | (Throw error, _, _) => Some error
  | (Normal _, _, _) => None
  end.

(** The transport and HTTP failures: the fetch rejects, the response is
    neither ok nor a 404, or its body is not an array of jobs. *)
Definition failure (r : Settled) : option string :=
  match r with
  | Rejected error => Some error
  | Responded status body =>
      if negb (ok status) then
        if status =? 404 then None else Some "Error"
      else
        match body with
        | NotJobs error => Some error
        | JobArray _ => None
        end
  end.

(** The failure in rendering: a 2xx job array that lists a job without
    [job_id] and whose fingerprint is not the stored one, so that
    [renderJobs] is called on it. *)
Definition render_failure (r : Settled) (st : State) : bool :=
  match r with
  | Responded status (JobArray jobs) =>
      ok status && differs (lastJobsHash st) (jobsHash jobs) &&
      negb (forallb has_id jobs)
  | _ => false
  end.

Definition errorNotification : Effect :=
  ShowNotification "Errore nel caricamento dei job" "destructive".

(** What holds of every reachable state, whatever the payloads: the guard
    is set exactly while a request is pending, never after the page has
    closed, and the empty fingerprint goes with zeroed counters. *)
Definition guarded (st : State) : Prop :=
  inflight st = (if _isRefreshing st then 1 else 0)%nat /\
  (aborted st = true -> _isRefreshing st = false) /\
  (lastJobsHash st = Some emptyHash -> counters st = Some noStats).

(** What holds in addition while the payloads conform: the timer runs at
    the period of the active flag until the page closes, and the empty
    fingerprint goes with no active jobs. *)
Definition invariant (st : State) : Prop :=
  inflight st = (if _isRefreshing st then 1 else 0)%nat /\
  refreshInterval st =
    (if aborted st then None else Some (if hasActiveJobs st then fast else slow)) /\
  (aborted st = true -> _isRefreshing st = false) /\
  (lastJobsHash st = Some emptyHash ->
   hasActiveJobs st = false /\ counters st = Some noStats).

(** Two states that differ at most in the guard and the pending request. *)
Definition same_view (st0 st : State) : Prop :=
  refreshInterval st0 = refreshInterval st /\
  lastJobsHash st0 = lastJobsHash st /\
  hasActiveJobs st0 = hasActiveJobs st /\
  aborted st0 = aborted st /\
  counters st0 = counters st.

(** ** The import form: validateUrls and handleSubmit *)

Module ImportForm.
Import JsString.

Definition supportedDomains : list string :=
  ["youtube.com"; "youtu.be"; "instagram.com"; "facebook.com"; "tiktok.com";
   "fb.watch"].

(** [supportedDomains.some(domain => url.toLowerCase().includes(domain))] *)
Definition isValid (url : string) : bool :=
  existsb (fun domain => includes (toLowerCase url) domain) supportedDomains.

(** [validateUrls(urls)]: the pair [{ valid, invalid }], filled by the
    [forEach] loop with [push]. *)
Definition validateUrls (urls : list string) : list string * list string :=
  fold_left
    (fun '(valid, invalid) url =>
       if isValid url then (valid ++ [url], invalid)%list
       else (valid, invalid ++ [url])%list)
    urls ([], []).

(** What [handleSubmit] does to the page and to the server. *)
Inductive Action :=
| Notify (message type : string)   (* this.showNotification(message, type) *)
| SubmitLoading (loading : bool)   (* this.setSubmitLoading(loading) *)
| PostIngest (urls : list string). (* POST /recipes/ingest with body { urls } *)

(** A list spliced from two lists, each kept in its order. *)
Inductive Interleave {A : Type} : list A -> list A -> list A -> Prop :=
| interleave_nil : Interleave [] [] []
| interleave_left x l r m : Interleave l r m -> Interleave (x :: l) r (x :: m)
| interleave_right x l r m : Interleave l r m -> Interleave l (x :: r) (x :: m).

Section Submit.
(** [input.match(urlPattern) || []], the work of the regular-expression
    engine. *)
Variable matchUrls : string -> list string.

Definition parseUrls (input : string) : list string :=
  if is_empty (trim input) then [] else matchUrls input.

(** [handleSubmit()], up to its [await this.startImport(valid)];
    [urlInput] is the value of the input element, if the element
    exists. *)
Definition handleSubmit (urlInput : option string) : list Action :=
  match urlInput with
  | None => [Notify "Elemento input non trovato" "destructive"]
  | Some value =>
      let input := trim value in
      if is_empty input then [Notify "Inserisci almeno un URL" "warning"]
      else
        let urls := parseUrls input in
        match urls with
        | [] => [Notify "Nessun URL valido trovato" "destructive"]
        | _ :: _ =>
            let '(valid, invalid) := validateUrls urls in
            let ignored :=
              match invalid with
              | [] => []
              | _ :: _ =>
                  [Notify (Num.dec (Z.of_nat (List.length invalid)) ++
                           " URL non supportati ignorati") "warning"]
              end in
            match valid with
            | [] =>
                (ignored ++ [Notify "Nessun URL supportato trovato" "destructive"])%list
            | _ :: _ => (ignored ++ [SubmitLoading true; PostIngest valid])%list
            end
        end
  end.
End Submit.

End ImportForm.

(** No method touches the count of pending requests: only the event loop
    does, when a fetch goes out and when it settles. *)
Definition keeps_inflight {A} (m : M A) : Prop :=
  forall st c st' e, m st = (c, st', e) -> inflight st' = inflight st.

(** The state [cleanup()] leaves: aborted, no timer, nothing pending. *)
Definition disposed (st : State) : Prop :=
  aborted st = true /\ refreshInterval st = None /\
  inflight st = 0%nat /\ _isRefreshing st = false.

(** What a disposed manager must not do any more. *)
Definition is_work (e : Effect) : bool :=
  match e with
  | RenderJobs _ | RenderEmptyState | UpdateStats _ | ShowNotification _ _
  | ConsoleError | SetInterval _ | LoadDatabaseStats => true
  | _ => false
  end.

(** ** Sample payloads *)

Definition sampleJob (id status : string) (progress_percent : Num.number) : Job.t :=
  Job.mk (Some id) (Some status) (Some progress_percent) None None None.

Definition queuedA : Job.t := sampleJob "A" "queued" (Num.of_Z 0).
Definition runningA : Job.t := sampleJob "A" "running" (Num.mkNum 402 1).
Definition runningA' : Job.t := sampleJob "A" "running" (Num.mkNum 404 1).
Definition completedA : Job.t := sampleJob "A" "completed" (Num.of_Z 100).

(** A running job that lacks its [job_id]. *)
Definition nameless : Job.t := Job.mk None (Some "running") None None None None.

(** Two snapshots of one job that differ in what the fingerprint leaves
    out: the counts of the progress record, the result, the detail. *)
Definition stagedA (total : Z) (detail : option string) : Job.t :=
  Job.mk (Some "A") (Some "running") (Some (Num.mkNum 402 1))
         (Some (Progress.mk (Some (Num.of_Z total)) None None (Some "stt") None))
         None detail.

(** ** Further definitions *)

(** The place of a job in the list that [renderJobs] shows; 4 stands for a
    status outside the table. *)
Definition rank (j : Job.t) : Z :=
  match Render.statusOrder (Job.status j) with Some r => r | None => 4 end.

(** The interval timers that are running: 1 when [refreshInterval] holds a
    handle, 0 when it is null. *)
Definition live (st : State) : nat :=
  match refreshInterval st with Some _ => 1%nat | None => 0%nat end.

Definition is_clearing (e : Effect) : bool :=
  match e with ClearInterval => true | _ => false end.

(** A method starts and stops timers in step with [refreshInterval]. *)
Definition timer_balanced {A} (m : M A) : Prop :=
  forall st c st' e,
    m st = (c, st', e) ->
    (count is_arming e + live st = count is_clearing e + live st')%nat.

Definition is_db (e : Effect) : bool :=
  match e with LoadDatabaseStats => true | _ => false end.

(** [x <= y] on numbers. *)
Definition num_le (x y : Num.number) : Prop := Num.ltb y x = false.

(** Whether a response is a 2xx job array that lists a completed job. *)
Definition brings_completed (r : Settled) : bool :=
  match r with
  | Responded status (JobArray jobs) =>
      ok status && existsb (Job.status_is "completed") jobs
  | _ => false
  end.

(** Two decimal literals of one number. *)
Definition num_eq (x y : Num.number) : Prop :=
  Num.mantissa x * Num.pow10 (Num.decimals y) =
  Num.mantissa y * Num.pow10 (Num.decimals x).

(** A running job whose progress overshoots. *)
Definition overshoot : Job.t :=
  Job.mk (Some "A") (Some "running") (Some (Num.of_Z 140)) (Some Progress.empty)
         None None.

(** A running job that imports twelve URLs. *)
Definition twelveUrls : Job.t :=
  Job.mk (Some "B") (Some "running") (Some (Num.of_Z 40))
         (Some (Progress.mk (Some (Num.of_Z 12)) None None (Some "download")
                  (Some (map (fun n => UrlProgress.mk
                                         (Some ("https://youtu.be/" ++ Num.dec (Z.of_nat n)))
                                         (Some "running") None None)
                             (seq 1 12)))))
         None None.

(** ** The shortcode panel

    [loadShortcodes], [toggleShortcodeSelection], [selectAllShortcodes],
    [deselectAllShortcodes], [updateShortcodeCounters],
    [updateReimportButton] and [reimportSelectedShortcodes]. *)

Module Shortcodes.

Record Shortcode := mkShortcode { shortcode : string; files_count : Z }.

(** [this.selectedShortcodes], a [Set] of strings: its elements in the
    order they were added. *)
Definition has (selected : list string) (code : string) : bool :=
  existsb (String.eqb code) selected.

Definition add (selected : list string) (code : string) : list string :=
  if has selected code then selected else (selected ++ [code])%list.

Definition delete (selected : list string) (code : string) : list string :=
  filter (fun c => negb (c =? code)%string) selected.

Record Panel := mkPanel {
  shortcodes : list Shortcode;         (* this.shortcodes *)
  selectedShortcodes : list string;    (* this.selectedShortcodes *)
  counters : option (nat * nat);       (* #selectedCount and #totalCount, once written *)
  reimportEnabled : option bool        (* !reimportSelectedBtn.disabled, once written *)
}.

Inductive Action :=
| RenderList (rows : list (string * bool)) (* the checkboxes: shortcode, checked *)
| RenderError                              (* renderShortcodesError() *)
| Notify (message type : string)           (* showNotification(message, type) *)
| NotifyStarted (count : nat) (job_id : option string)
                                           (* the success notification of a reimport *)
| ConsoleError
| PostReimport (body : list string)        (* POST /shortcodes/reimport *)
| LoadJobs.                                (* this.loadJobs() *)

Definition updateShortcodeCounters (p : Panel) : Panel :=
  mkPanel (shortcodes p) (selectedShortcodes p)
          (Some (List.length (selectedShortcodes p), List.length (shortcodes p)))
          (reimportEnabled p).

Definition updateReimportButton (p : Panel) : Panel :=
  mkPanel (shortcodes p) (selectedShortcodes p) (counters p)
          (Some (0 <? List.length (selectedShortcodes p))%nat).

Definition renderShortcodesList (p : Panel) : list Action :=
  [RenderList (map (fun sc => (shortcode sc, has (selectedShortcodes p) (shortcode sc)))
                   (shortcodes p))].

Definition set_selected (selected : list string) (p : Panel) : Panel :=
  mkPanel (shortcodes p) selected (counters p) (reimportEnabled p).

Definition toggleShortcodeSelection (code : string) (p : Panel) : Panel * list Action :=
  let selected :=
    if has (selectedShortcodes p) code then delete (selectedShortcodes p) code
    else add (selectedShortcodes p) code in
  (updateReimportButton (updateShortcodeCounters (set_selected selected p)), []).

Definition selectAllShortcodes (p : Panel) : Panel * list Action :=
  let p1 :=
    set_selected (fold_left (fun s sc => add s (shortcode sc)) (shortcodes p)
                            (selectedShortcodes p)) p in
  (updateReimportButton (updateShortcodeCounters p1), renderShortcodesList p1).

Definition deselectAllShortcodes (p : Panel) : Panel * list Action :=
  let p1 := set_selected [] p in
  (updateReimportButton (updateShortcodeCounters p1), renderShortcodesList p1).

(** How a request of the panel settles: a 2xx response (with the part of
    its body that the code reads, if present), another response (with its
    [detail], if present), or a rejected fetch (with the error message). *)
Inductive Settled (A : Type) :=
| Ok (data : option A)
| NotOk (detail : option string)
| Rejected (message : string).
Arguments Ok {A} data.
Arguments NotOk {A} detail.
Arguments Rejected {A} message.

(** [loadShortcodes], once [GET /shortcodes/list] has settled; the data
    read is [data.shortcodes]. *)
Definition loadShortcodes (r : Settled (list Shortcode)) (p : Panel)
  : Panel * list Action :=
  match r with
  | Ok data =>
      let p1 :=
        mkPanel (match data with Some l => l | None => [] end)
                (selectedShortcodes p) (counters p) (reimportEnabled p) in
      (updateShortcodeCounters p1, renderShortcodesList p1)
  | NotOk _ | Rejected _ =>
      (p, [ConsoleError; Notify "Errore nel caricamento shortcode" "destructive";
           RenderError])
  end.

(** [reimportSelectedShortcodes], up to its [await fetch]: the array it
    posts, if it posts; [confirmed] is the answer to [confirm(...)]. *)
Definition reimport_enter (confirmed : bool) (p : Panel)
  : option (list string) * list Action :=
  match selectedShortcodes p with
  | [] => (None, [Notify "Seleziona almeno un shortcode" "warning"])
  | _ :: _ =>
      if confirmed
      then (Some (selectedShortcodes p), [PostReimport (selectedShortcodes p)])
      else (None, [])
  end.

(** The rest of it, once the POST has settled; [shortcodesArray] is the
    array that was posted and the data read is [result.job_id]. *)
Definition reimport_resume (shortcodesArray : list string) (r : Settled string)
           (p : Panel) : Panel * list Action :=
  match r with
  | Ok job_id =>
      let '(p1, rendered) := deselectAllShortcodes p in
      (p1, (NotifyStarted (List.length shortcodesArray) job_id :: rendered ++ [LoadJobs])%list)
  | NotOk detail =>
      let message :=
        match detail with
        | Some d => if JsString.is_empty d then "Errore durante il reimport" else d
        | None => "Errore durante il reimport"
        end in
      (p, [ConsoleError; Notify ("Errore: " ++ message) "destructive"])
  | Rejected message =>
      (p, [ConsoleError; Notify ("Errore: " ++ message) "destructive"])
  end.

(** What the user and the network do to the panel. *)
Inductive Event :=
| Toggle (code : string)
| SelectAll
| DeselectAll
| Loaded (r : Settled (list Shortcode))
| ReimportClicked (confirmed : bool)
| ReimportSettled (shortcodesArray : list string) (r : Settled string).

Definition step (e : Event) (p : Panel) : Panel * list Action :=
  match e with
  | Toggle code => toggleShortcodeSelection code p
  | SelectAll => selectAllShortcodes p
  | DeselectAll => deselectAllShortcodes p
  | Loaded r => loadShortcodes r p
  | ReimportClicked confirmed => (p, snd (reimport_enter confirmed p))
  | ReimportSettled shortcodesArray r => reimport_resume shortcodesArray r p
  end.

Fixpoint run (events : list Event) (p : Panel) : Panel * list Action :=
  match events with
  | [] => (p, [])
  | e :: rest =>
      let '(p1, e1) := step e p in
      let '(p2, e2) := run rest p1 in
      (p2, (e1 ++ e2)%list)
  end.

(** The panel as the constructor leaves it. *)
Definition initial : Panel := mkPanel [] [] None None.

End Shortcodes.

(** The panel shows what it holds: the selection is a set, and the counters
    and the button, once written, tell the current selection. *)
Definition panel_ok (p : Shortcodes.Panel) : Prop :=
  NoDup (Shortcodes.selectedShortcodes p) /\
  (forall n t, Shortcodes.counters p = Some (n, t) ->
               n = List.length (Shortcodes.selectedShortcodes p) /\
               t = List.length (Shortcodes.shortcodes p)) /\
  (forall b, Shortcodes.reimportEnabled p = Some b ->
             b = (0 <? List.length (Shortcodes.selectedShortcodes p))%nat).

Definition sampleCodes : list Shortcodes.Shortcode :=
  [Shortcodes.mkShortcode "abc" 3; Shortcodes.mkShortcode "xyz" 1].

(** ** The older poller of src/frontend/import.js

    Its [ImportManager] keeps no fingerprint, no guard and no abort
    controller, and its timer has one period.  Its [renderJobs] sorts and
    maps [renderJob] as above (the cards differ in their markup and show
    five URL rows instead of ten), so it throws on the same payloads. *)

Module Legacy.

Record State := mkState {
  refreshInterval : option Z;  (* null, or the interval timer, by its period *)
  counters : option Stats;     (* the counter elements, once written *)
  inflight : nat               (* status requests awaiting their response *)
}.

Definition is_fetch (e : Effect) : bool :=
  match e with FetchStatus => true | _ => false end.

(** [catch (error) { console.error(...); this.showNotification(...) }]
    and [finally { this.setRefreshLoading(false) }] *)
Definition caught : list Effect :=
  [ConsoleError; errorNotification; SetRefreshLoading false].

(** [loadJobs], up to its [await fetch(...)]. *)
Definition loadJobs_enter (st : State) : State * list Effect :=
  (mkState (refreshInterval st) (counters st) (S (inflight st)),
   [SetRefreshLoading true; FetchStatus]).

(** [loadJobs], from the moment its fetch settles. *)
Definition loadJobs_resume (r : Settled) (st : State) : State * list Effect :=
  match r with
  | Rejected _ => (st, caught)
  | Responded status body =>
      if negb (ok status) then
        if status =? 404 then
          (mkState (refreshInterval st) (Some noStats) (inflight st),
           [RenderEmptyState; UpdateStats noStats; SetRefreshLoading false])
        else (st, caught)
      else
        match body with
        | NotJobs _ => (st, caught)
        | JobArray jobs =>
            match Render.renderJobs jobs with
            | Throw _ => (st, RenderJobs jobs :: caught)
            | Normal (sortedJobs, _) =>
                (mkState (refreshInterval st) (Some (jobStats sortedJobs)) (inflight st),
                 RenderJobs jobs ::
                 match jobs with [] => [RenderEmptyState] | _ :: _ => [] end ++
                 UpdateStats (jobStats sortedJobs) ::
                 (if existsb (Job.status_is "completed") sortedJobs
                  then [LoadDatabaseStats] else []) ++
                 [SetRefreshLoading false])%list
            end
        end
  end.

(** [startPeriodicRefresh()]: a new timer, whatever the old handle. *)
Definition startPeriodicRefresh (st : State) : State * list Effect :=
  (mkState (Some 2000) (counters st) (inflight st), [SetInterval 2000]).

Definition stopPeriodicRefresh (st : State) : State * list Effect :=
  match refreshInterval st with
  | Some _ => (mkState None (counters st) (inflight st), [ClearInterval])
  | None => (st, [])
  end.

(** [new ImportManager()] *)
Definition constructed : State :=
  fst (loadJobs_enter (fst (startPeriodicRefresh (mkState None None 0)))).

Definition step (e : Event) (st : State) : option (State * list Effect) :=
  match e with
  | TimerFires =>
      match refreshInterval st with
      | Some _ => Some (loadJobs_enter st)
      | None => None
      end
  | LoadJobsCalled => Some (loadJobs_enter st)
  | FetchSettles r =>
      match inflight st with
      | O => None
      | S n => Some (loadJobs_resume r (mkState (refreshInterval st) (counters st) n))
      end
  | PageCloses => Some (stopPeriodicRefresh st)   (* beforeunload *)
  end.

Fixpoint run (events : list Event) (st : State) : option (State * list Effect) :=
  match events with
  | [] => Some (st, [])
  | e :: rest =>
      match step e st with
      | None => None
      | Some (st1, e1) =>
          match run rest st1 with
          | None => None
          | Some (st2, e2) => Some (st2, (e1 ++ e2)%list)
          end
      end
  end.

End Legacy.

(** ** The regular expression of parseUrls

    [/https?:\/\/(www\.)?(youtube\.com|youtu\.be|instagram\.com|facebook\.com|tiktok\.com|fb\.watch)\/[^\s,]+/gi]
    as a backtracking matcher.  How far the class [[^\s,]+] reaches is left
    to the engine: [tail s] is the length of the longest prefix of [s] made
    of characters that are neither white space nor a comma. *)

Module UrlPattern.
Import JsString.

(** A literal of the pattern (in lower case), matched without regard to
    case: the text it consumes and the text left. *)
Fixpoint lit (pattern s : string) : option (string * string) :=
  match pattern with
  | EmptyString => Some (EmptyString, s)
  | String c pattern' =>
      match s with
      | EmptyString => None
      | String x s' =>
          if Ascii.eqb (lower_char x) c then
            match lit pattern' s' with
            | Some (m, rest) => Some (String x m, rest)
            | None => None
            end
          else None
      end
  end.

(** [s.slice(n)] *)
Fixpoint drop (n : nat) (s : string) : string :=
  match n, s with
  | S n', String _ s' => drop n' s'
  | _, _ => s
  end.

Section Engine.
Variable tail : string -> nat.

(** [\/[^\s,]+]: the end of the pattern. *)
Definition path (s : string) : option (string * string) :=
  match lit "/" s with
  | Some (slash, s1) =>
      match tail s1 with
      | O => None
      | S n => Some ((slash ++ take (S n) s1)%string, drop (S n) s1)
      end
  | None => None
  end.

(** [(youtube\.com|...|fb\.watch)] followed by the end of the pattern: the
    alternatives are tried in order, the next one when the rest of the
    pattern fails after this one. *)
Fixpoint domain (alternatives : list string) (s : string) : option (string * string) :=
  match alternatives with
  | [] => None
  | d :: others =>
      match lit d s with
      | Some (m, s1) =>
          match path s1 with
          | Some (p, rest) => Some ((m ++ p)%string, rest)
          | None => domain others s
          end
      | None => domain others s
      end
  end.

Definition domains : list string :=
  ["youtube.com"; "youtu.be"; "instagram.com"; "facebook.com"; "tiktok.com"; "fb.watch"].

(** [x?] before [k]: greedy, and without [x] when [k] fails after it. *)
Definition optional (x : string) (k : string -> option (string * string)) (s : string)
  : option (string * string) :=
  match lit x s with
  | Some (m, s1) =>
      match k s1 with
      | Some (m', rest) => Some ((m ++ m')%string, rest)
      | None => k s
      end
  | None => k s
  end.

(** The whole pattern, tried at the start of [s]. *)
Definition match_at (s : string) : option (string * string) :=
  match lit "http" s with
  | Some (m, s1) =>
      match optional "s"
              (fun s2 =>
                 match lit "://" s2 with
                 | Some (m', s3) =>
                     match optional "www." (domain domains) s3 with
                     | Some (m'', rest) => Some ((m' ++ m'')%string, rest)
                     | None => None
                     end
                 | None => None
                 end) s1 with
      | Some (m', rest) => Some ((m ++ m')%string, rest)
      | None => None
      end
  | None => None
  end.

(** [input.match(urlPattern) || []]: the matches from left to right, each
    search starting where the last match ended.  Every round consumes a
    character, so [String.length input] rounds exhaust the input. *)
Fixpoint matches (fuel : nat) (s : string) : list string :=
  match fuel with
  | O => []
  | S fuel' =>
      match match_at s with
      | Some (m, rest) => m :: matches fuel' rest
      | None =>
          match s with
          | EmptyString => []
          | String _ s' => matches fuel' s'
          end
      end
  end.

Definition matchUrls (input : string) : list string :=
  matches (S (String.length input)) input.

End Engine.

(** The class [[^\s,]] on ASCII text. *)
Fixpoint asciiTail (s : string) : nat :=
  match s with
  | EmptyString => O
  | String c s' =>
      if is_space c || Ascii.eqb c ","%char then O else S (asciiTail s')
  end.

End UrlPattern.

(** A text that contains, in any case, one of the domains. *)
Definition names_domain (m : string) : Prop :=
  exists a d b, m = (a ++ d ++ b)%string /\
                In (JsString.toLowerCase d) ImportForm.supportedDomains.

(** ** handleSubmit after the POST, and startImport *)

Module Submit.

Inductive Action :=
| Notify (message type : string)
| ConsoleError
| ClearInput               (* this.elements.urlInput.value = '' *)
| CollapseImportSection
| ExpandMonitoringSection
| LoadJobs                 (* this.loadJobs() *)
| SubmitLoading (loading : bool).

(** [startImport]: the job id, or the message of the error it throws.
    The response carries [result.job_id] when ok and [error.detail]
    otherwise. *)
Definition startImport (r : Shortcodes.Settled string) : Completion (option string) :=
  match r with
  | Shortcodes.Ok job_id => Normal job_id
  | Shortcodes.NotOk detail =>
      Throw (match Render.or_else detail None with
             | Some d => d
             | None => "Errore durante l'avvio dell'import"
             end)
  | Shortcodes.Rejected message => Throw message
  end.

(** [handleSubmit], from the moment the POST of [startImport] settles. *)
Definition handleSubmit_resume (r : Shortcodes.Settled string) : list Action :=
  (match startImport r with
   | Normal job_id =>
       match Render.or_else job_id None with
       | Some id =>
           [Notify ("Import avviato con successo! Job ID: " ++ id) "success";
            ClearInput; CollapseImportSection; ExpandMonitoringSection; LoadJobs]
       | None => []
       end
   | Throw message => [ConsoleError; Notify ("Errore: " ++ message) "destructive"]
   end ++ [SubmitLoading false])%list.

Definition is_notify (a : Action) : bool :=
  match a with Notify _ _ => true | _ => false end.

End Submit.

(** ** scheduleAccordionRecalculation

    The timeouts that the browser holds are kept by their handles, each
    with the section it will recalculate. *)

Module Accordion.

Record State := mkState {
  accordionRecalcTimeout : option nat;  (* null, or the handle of the timeout *)
  timeouts : list (nat * string);       (* set by setTimeout, not yet run or cleared *)
  cleanupTasks : nat;                   (* this._cleanupTasks.length *)
  nextHandle : nat                      (* what setTimeout returns next *)
}.

(** [clearTimeout(handle)] *)
Definition clearTimeout (handle : nat) (l : list (nat * string)) : list (nat * string) :=
  filter (fun t => negb (fst t =? handle)%nat) l.

(** [if (this.accordionRecalcTimeout) { clearTimeout(...); ... = null; }],
    the body of [stopPeriodicRefresh] for this timeout and of every task
    that [scheduleAccordionRecalculation] registers. *)
Definition cancel (st : State) : State :=
  match accordionRecalcTimeout st with
  | Some handle =>
      mkState None (clearTimeout handle (timeouts st)) (cleanupTasks st) (nextHandle st)
  | None => st
  end.

Definition scheduleAccordionRecalculation (sectionId : string) (st : State) : State :=
  let st1 := cancel st in
  mkState (Some (nextHandle st1))
          (timeouts st1 ++ [(nextHandle st1, sectionId)])
          (S (cleanupTasks st1))
          (S (nextHandle st1)).

(** The timeout runs: [recalculateCollapsibleHeight(sectionId)], then
    [this.accordionRecalcTimeout = null] in the [finally]. *)
Definition timeoutRuns (handle : nat) (st : State) : option (State * list string) :=
  match find (fun t => (fst t =? handle)%nat) (timeouts st) with
  | Some (_, sectionId) =>
      Some (mkState None (clearTimeout handle (timeouts st)) (cleanupTasks st)
                    (nextHandle st),
            [sectionId])
  | None => None
  end.

(** The part of [cleanup()] that concerns the accordion:
    [stopPeriodicRefresh()], every registered task, then
    [this._cleanupTasks = []]. *)
Definition cleanup (st : State) : State :=
  let st1 := Nat.iter (cleanupTasks st) cancel (cancel st) in
  mkState (accordionRecalcTimeout st1) (timeouts st1) 0 (nextHandle st1).

Inductive Event :=
| Schedule (sectionId : string)
| TimeoutRuns (handle : nat)
| Stop
| Cleanup.

Definition step (e : Event) (st : State) : option (State * list string) :=
  match e with
  | Schedule sectionId => Some (scheduleAccordionRecalculation sectionId st, [])
  | TimeoutRuns handle => timeoutRuns handle st
  | Stop => Some (cancel st, [])
  | Cleanup => Some (cleanup st, [])
  end.

(** The sections recalculated along a run of events. *)
Fixpoint run (events : list Event) (st : State) : option (State * list string) :=
  match events with
  | [] => Some (st, [])
  | e :: rest =>
      match step e st with
      | None => None
      | Some (st1, r1) =>
          match run rest st1 with
          | None => None
          | Some (st2, r2) => Some (st2, (r1 ++ r2)%list)
          end
      end
  end.

(** A new manager.  [setTimeout] returns integers greater than zero, so a
    handle is never taken for [null] by [if (this.accordionRecalcTimeout)]. *)
Definition initial : State := mkState None [] 0 1.

(** The calls of [scheduleAccordionRecalculation] among the events. *)
Definition calls (events : list Event) : nat :=
  List.length (filter (fun e => match e with Schedule _ => true | _ => false end) events).

(** The calls of [scheduleAccordionRecalculation] since the last
    [cleanup]. *)
Fixpoint scheduled (events : list Event) (before : nat) : nat :=
  match events with
  | [] => before
  | Schedule _ :: rest => scheduled rest (S before)
  | Cleanup :: rest => scheduled rest 0
  | _ :: rest => scheduled rest before
  end.

(** At most one timeout waits, and it is the one the manager remembers. *)
Definition debounced (st : State) : Prop :=
  match accordionRecalcTimeout st with
  | Some handle =>
      (handle < nextHandle st)%nat /\
      exists sectionId, timeouts st = [(handle, sectionId)]
  | None => timeouts st = []
  end.

(** What a poll does to the accordion, read off its effects:
    [renderEmptyState] and [renderJobs] call
    [scheduleAccordionRecalculation('jobsList')] when they replaced the
    content of the list ([changed]: the element exists and its [innerHTML]
    differed), [renderJobs] only if no card threw;
    [optimizeRefreshInterval], the one caller of [setInterval], begins with
    [stopPeriodicRefresh()]; [cleanup], the one caller of [abort()], runs
    the teardown. *)
Definition of_effect (changed : bool) (e : Effect) : list Event :=
  match e with
  | RenderEmptyState => if changed then [Schedule "jobsList"] else []
  | RenderJobs ((_ :: _) as jobs) =>
      match Render.renderJobs jobs with
      | Normal _ => if changed then [Schedule "jobsList"] else []
      | Throw _ => []
      end
  | SetInterval _ => [Stop]
  | Abort => [Cleanup]
  | _ => []
  end.

Definition of_effects (changed : bool) (effects : list Effect) : list Event :=
  flat_map (of_effect changed) effects.

End Accordion.

(** ** handleRecalculateEmbeddings

    The button, the status line and the progress elements are taken to be
    on the page, as the template has them. *)

Module Embeddings.

(** What [await response.json()] gives: the part of the body that the code
    reads, or the error it rejects with. *)
Inductive Body (A : Type) :=
| Parsed (value : A)
| Unparsable (message : string).
Arguments Parsed {A} value.
Arguments Unparsable {A} message.

(** How [POST /embeddings/recalculate] settles. *)
Inductive Settled :=
| Rejected (message : string)              (* fetch rejects *)
| NotOk (error : Body (option string))     (* !response.ok; error.detail *)
| Ok (result : Body (option Num.number)).  (* result.recipes_processed *)

Inductive Action :=
| DisableButton            (* recalcBtn.disabled = true, status and progress shown *)
| Schedule (sectionId : string)   (* this.scheduleAccordionRecalculation(sectionId) *)
| ResetProgress            (* the bar at 0% *)
| SetTimeout (ms : Z)      (* setTimeout(..., ms) *)
| Fetch                    (* fetch(`${apiBaseUrl}/embeddings/recalculate`, ...) *)
| SetInterval              (* progressInterval = setInterval(..., 1000) *)
| ClearInterval            (* clearInterval(progressInterval) *)
| ShowCompleted            (* the bar at 100% *)
| Notify (message type : string)
| LoadDatabaseStats        (* await this.loadDatabaseStats() *)
| ConsoleError
| HideProgress             (* recalcProgress.classList.add('hidden') *)
| EnableButton.            (* recalcBtn.disabled = false, status hidden *)

(** Up to [await fetch(...)]; [confirmResult] is the answer to [confirm]. *)
Definition enter (confirmResult : bool) : list Action :=
  if confirmResult
  then [DisableButton; Schedule "embeddingPanel"; ResetProgress; SetTimeout 500; Fetch]
  else [].

(** The [catch] block. *)
Definition caught (message : string) : list Action :=
  [ConsoleError; Notify ("❌ Errore: " ++ message) "destructive"; HideProgress;
   Schedule "embeddingPanel"].

(** [result.recipes_processed || 0] *)
Definition processed (recipes_processed : option Num.number) : Num.number :=
  match recipes_processed with
  | Some n => if Num.truthy n then n else Num.zero
  | None => Num.zero
  end.

(** From the moment the fetch settles to the end of the [finally]. *)
Definition resume (r : Settled) : list Action :=
  (match r with
   | Rejected message => caught message
   | NotOk error =>
       SetInterval :: ClearInterval ::
       caught (match error with
               | Unparsable message => message
               | Parsed detail =>
                   match Render.or_else detail None with
                   | Some d => d
                   | None => "Errore durante il ricalcolo degli embeddings"
                   end
               end)
   | Ok (Unparsable message) => SetInterval :: caught message
   | Ok (Parsed recipes_processed) =>
       [SetInterval; ClearInterval; ShowCompleted;
        Notify ("✅ Ricalcolo embeddings completato!" ++ String "010"%char
                  (Num.toString (processed recipes_processed) ++ " ricette aggiornate"))
               "success";
        LoadDatabaseStats; SetTimeout 3000]
   end ++ [EnableButton])%list.

Definition is_set (a : Action) : bool :=
  match a with SetInterval => true | _ => false end.
Definition is_clear (a : Action) : bool :=
  match a with ClearInterval => true | _ => false end.
Definition is_notify (a : Action) : bool :=
  match a with Notify _ _ => true | _ => false end.

End Embeddings.

(** * Properties *)

(** ** Sorting keeps the jobs *)

Lemma insert_perm (x : Job.t) (l : list Job.t) :
  Permutation (x :: l) (Render.insert x l).
Proof.
  induction l as [|y l IH]; simpl.
  - apply Permutation_refl.
  - destruct (Render.comes_after x y).
    + eapply perm_trans; [apply perm_swap|]. now apply perm_skip.
    + apply Permutation_refl.
Qed.

Lemma sort_perm (l : list Job.t) : Permutation l (Render.sort l).
Proof.
  induction l as [|x l IH]; simpl.
  - apply perm_nil.
  - eapply perm_trans; [apply perm_skip, IH | apply insert_perm].
Qed.

Lemma filter_length_perm {A} (p : A -> bool) (l l' : list A) :
  Permutation l l' -> List.length (filter p l) = List.length (filter p l').
Proof.
  induction 1; simpl; try congruence.
  - destruct (p x); simpl; congruence.
  - destruct (p x), (p y); reflexivity.
Qed.

Lemma existsb_perm {A} (p : A -> bool) (l l' : list A) :
  Permutation l l' -> existsb p l = existsb p l'.
Proof.
  induction 1; simpl; try congruence.
  destruct (p x), (p y); reflexivity.
Qed.

Lemma forallb_perm {A} (p : A -> bool) (l l' : list A) :
  Permutation l l' -> forallb p l = forallb p l'.
Proof.
  induction 1; simpl; try congruence.
  destruct (p x), (p y); reflexivity.
Qed.

Lemma jobStats_sort (jobs : list Job.t) : jobStats (Render.sort jobs) = jobStats jobs.
Proof.
  unfold jobStats, count_status.
  now rewrite !(filter_length_perm _ _ _ (sort_perm jobs)).
Qed.

(** ** Rendering a conforming payload does not throw *)

Lemma renderJob_has_id (j : Job.t) :
  has_id j = true -> exists card, Render.renderJob j = Normal card.
Proof.
  unfold has_id, Render.renderJob. destruct (Job.job_id j); [eauto | discriminate].
Qed.

Lemma mapThrowing_all {A B} (f : A -> Completion B) (l : list A) :
  (forall a, In a l -> exists b, f a = Normal b) ->
  exists bs, Render.mapThrowing f l = Normal bs /\
             Forall2 (fun a b => f a = Normal b) l bs.
Proof.
  induction l as [|a l IH]; intros H; simpl.
  - exists []. split; [reflexivity | constructor].
  - destruct (H a (or_introl eq_refl)) as [b Hb].
    destruct IH as [bs [Hbs HF]]; [intros; apply H; now right|].
    rewrite Hb, Hbs. exists (b :: bs). split; [reflexivity | now constructor].
Qed.

Lemma renderJobs_conforming (jobs : list Job.t) :
  forallb has_id jobs = true ->
  exists content, Render.renderJobs jobs = Normal (Render.sort jobs, content).
Proof.
  intros H. unfold Render.renderJobs. destruct jobs as [|j jobs].
  - exists Render.EmptyState. reflexivity.
  - destruct (mapThrowing_all Render.renderJob (Render.sort (j :: jobs))) as [cards [Hc _]].
    + intros a Ha. apply renderJob_has_id.
      rewrite (forallb_perm _ _ _ (sort_perm (j :: jobs))) in H.
      rewrite forallb_forall in H. now apply H.
    + rewrite Hc. eauto.
Qed.

(** ** A payload that lacks a [job_id] makes rendering throw *)

Lemma mapThrowing_throws {A B} (f : A -> Completion B) (name : string) (l : list A) :
  (forall a, In a l -> f a = Throw name \/ exists b, f a = Normal b) ->
  (exists a, In a l /\ f a = Throw name) ->
  Render.mapThrowing f l = Throw name.
Proof.
  induction l as [|a l IH]; intros Hall [x [Hin Hx]]; [destruct Hin|].
  cbn [Render.mapThrowing].
  destruct (Hall a (or_introl eq_refl)) as [Ha | [b Hb]]; [now rewrite Ha|].
  rewrite Hb. destruct Hin as [->|Hin]; [congruence|].
  rewrite IH; [reflexivity | intros; apply Hall; now right | eauto].
Qed.

Lemma renderJob_cases (j : Job.t) :
  Render.renderJob j = Throw "TypeError" \/ exists card, Render.renderJob j = Normal card.
Proof. unfold Render.renderJob. destruct (Job.job_id j); eauto. Qed.

Lemma renderJobs_throws (jobs : list Job.t) :
  forallb has_id jobs = false -> Render.renderJobs jobs = Throw "TypeError".
Proof.
  intros H. destruct jobs as [|j jobs]; [discriminate|].
  unfold Render.renderJobs.
  rewrite (mapThrowing_throws Render.renderJob "TypeError"); [reflexivity | |].
  - intros a _. apply renderJob_cases.
  - rewrite (forallb_perm _ _ _ (sort_perm (j :: jobs))) in H.
    assert (Hex : exists a, In a (Render.sort (j :: jobs)) /\ has_id a = false).
    { induction (Render.sort (j :: jobs)) as [|a l IH]; [discriminate|].
      cbn [forallb] in H. destruct (has_id a) eqn:Ha.
      - destruct (IH H) as [x [Hin Hx]]. exists x. split; [now right | exact Hx].
      - exists a. split; [now left | exact Ha]. }
    destruct Hex as [a [Hin Ha]]. exists a. split; [exact Hin|].
    unfold has_id in Ha. unfold Render.renderJob.
    destruct (Job.job_id a); [discriminate | reflexivity].
Qed.

(** ** What [loadJobs] leaves behind, case by case *)

Ltac methods :=
  unfold exec, loadJobs, loadJobs_enter, loadJobs_resume, finally, try_catch,
    loadJobs_try, loadJobs_catch, loadJobs_finally, cleanup,
    optimizeRefreshInterval, stopPeriodicRefresh, updateJobStats, updateStats,
    showNotification, renderJobs, renderEmptyState, when, bind, get, modify,
    emit, throw, ret.

Lemma differs_false (stored : option string) (hash : string) :
  differs stored hash = false -> stored = Some hash.
Proof.
  destruct stored as [h|]; simpl; [|discriminate].
  intros H. apply negb_false_iff, String.eqb_eq in H. now subst.
Qed.

Lemma differs_same (hash : string) : differs (Some hash) hash = false.
Proof. simpl. now rewrite String.eqb_refl. Qed.

(** A 2xx response with a conforming job array. *)
Lemma resume_found (st : State) (status : Z) (jobs : list Job.t) :
  ok status = true -> forallb has_id jobs = true ->
  exec (loadJobs_resume (Responded status (JobArray jobs))) st =
    ({| refreshInterval :=
          if negb (Bool.eqb (hasActiveJobs st) (anyActive jobs))
          then Some (if anyActive jobs then fast else slow)
          else refreshInterval st;
        lastJobsHash := Some (jobsHash jobs);
        hasActiveJobs := anyActive jobs;
        _isRefreshing := false;
        aborted := aborted st;
        counters := Some (jobStats jobs);
        inflight := inflight st |},
     (if differs (lastJobsHash st) (jobsHash jobs)
      then RenderJobs jobs :: match jobs with [] => [RenderEmptyState] | _ => [] end
      else []) ++
     [UpdateStats (jobStats jobs)] ++
     (if negb (Bool.eqb (hasActiveJobs st) (anyActive jobs))
      then match refreshInterval st with Some _ => [ClearInterval] | None => [] end ++
           [SetInterval (if anyActive jobs then fast else slow)]
      else []) ++
     (if existsb (Job.status_is "completed") jobs then [LoadDatabaseStats] else []) ++
     [SetRefreshLoading false])%list.
Proof.
  intros Hok Hid.
  destruct (renderJobs_conforming jobs Hid) as [content Hr].
  pose proof (existsb_perm (Job.status_is "completed") _ _ (sort_perm jobs)) as He.
  pose proof (jobStats_sort jobs) as Hs.
  methods. rewrite Hok, Hr. cbn [negb]. fold (anyActive jobs).
  destruct st as [ri h a r ab c n];
    cbn [lastJobsHash hasActiveJobs refreshInterval aborted inflight].
  destruct (differs h (jobsHash jobs)) eqn:Hd.
  - destruct jobs as [|j jobs']; cbn -[jobStats anyActive Render.sort jobsHash existsb];
      rewrite ?Hs, <- ?He;
      destruct (negb (eqb a (anyActive _))); destruct ri; destruct (anyActive _);
      cbn -[jobStats Render.sort jobsHash existsb];
      destruct (existsb _ _); reflexivity.
  - apply differs_false in Hd. subst h.
    cbn -[jobStats anyActive Render.sort jobsHash existsb].
    destruct (negb (eqb a (anyActive _))); destruct ri; destruct (anyActive _);
      cbn -[jobStats Render.sort jobsHash existsb];
      destruct (existsb _ _); reflexivity.
Qed.

(** A 2xx response with a job array whose fingerprint is the stored one:
    nothing is rendered, whatever the jobs. *)
Lemma resume_found_same (st : State) (status : Z) (jobs : list Job.t) :
  ok status = true -> differs (lastJobsHash st) (jobsHash jobs) = false ->
  exec (loadJobs_resume (Responded status (JobArray jobs))) st =
    ({| refreshInterval :=
          if negb (Bool.eqb (hasActiveJobs st) (anyActive jobs))
          then Some (if anyActive jobs then fast else slow)
          else refreshInterval st;
        lastJobsHash := lastJobsHash st;
        hasActiveJobs := anyActive jobs;
        _isRefreshing := false;
        aborted := aborted st;
        counters := Some (jobStats jobs);
        inflight := inflight st |},
     [UpdateStats (jobStats jobs)] ++
     (if negb (Bool.eqb (hasActiveJobs st) (anyActive jobs))
      then match refreshInterval st with Some _ => [ClearInterval] | None => [] end ++
           [SetInterval (if anyActive jobs then fast else slow)]
      else []) ++
     (if existsb (Job.status_is "completed") jobs then [LoadDatabaseStats] else []) ++
     [SetRefreshLoading false])%list.
Proof.
  intros Hok Hd. methods. rewrite Hok. cbn [negb]. fold (anyActive jobs).
  destruct st as [ri h a r ab c n];
    cbn [lastJobsHash hasActiveJobs refreshInterval aborted inflight] in *.
  rewrite Hd. cbn -[jobStats anyActive jobsHash existsb].
  destruct (negb (eqb a (anyActive _))); destruct ri; destruct (anyActive _);
    cbn -[jobStats jobsHash existsb];
    destruct (existsb _ _); reflexivity.
Qed.

(** A 2xx response with a job array that [renderJobs] is called on and
    that lists a job without [job_id]. *)
Lemma resume_render_throws (st : State) (status : Z) (jobs : list Job.t) :
  ok status = true -> forallb has_id jobs = false ->
  differs (lastJobsHash st) (jobsHash jobs) = true ->
  exec (loadJobs_resume (Responded status (JobArray jobs))) st =
    (set_isRefreshing false (set_hasActiveJobs (anyActive jobs) st),
     [RenderJobs jobs; ConsoleError;
      ShowNotification "Errore nel caricamento dei job" "destructive";
      SetRefreshLoading false]).
Proof.
  intros Hok Hid Hd.
  methods. rewrite Hok, (renderJobs_throws _ Hid). cbn [negb].
  fold (anyActive jobs).
  destruct st as [ri h a r ab c n]; cbn [lastJobsHash] in *. rewrite Hd.
  destruct jobs as [|j jobs]; [discriminate|]. reflexivity.
Qed.

(** A 404 response. *)
Lemma resume_notFound (st : State) (body : Body) :
  exec (loadJobs_resume (Responded 404 body)) st =
    if differs (lastJobsHash st) emptyHash then
      ({| refreshInterval := Some slow;
          lastJobsHash := Some emptyHash;
          hasActiveJobs := false;
          _isRefreshing := false;
          aborted := aborted st;
          counters := Some noStats;
          inflight := inflight st |},
       [RenderEmptyState; UpdateStats noStats] ++
       match refreshInterval st with Some _ => [ClearInterval] | None => [] end ++
       [SetInterval slow; SetRefreshLoading false])%list
    else (set_isRefreshing false st, [SetRefreshLoading false]).
Proof.
  methods. cbn [ok Z.leb Z.compare Pos.compare Pos.compare_cont andb negb Z.eqb Pos.eqb].
  destruct st as [ri h a r ab c n]; cbn [lastJobsHash].
  destruct (differs h emptyHash); [destruct ri|]; reflexivity.
Qed.

(** A transport or HTTP failure. *)
Lemma resume_failure (st : State) (r : Settled) (error : string) :
  failure r = Some error ->
  exec (loadJobs_resume r) st =
    (set_isRefreshing false st,
     if negb (error =? "AbortError")%string
     then [ConsoleError; errorNotification; SetRefreshLoading false]
     else [SetRefreshLoading false]).
Proof.
  unfold failure. intros H. methods.
  destruct r as [status body | e].
  - destruct (negb (ok status)).
    + destruct (status =? 404); [discriminate|]. injection H as <-. reflexivity.
    + destruct body as [jobs | e]; [discriminate|]. injection H as <-.
      destruct (negb (e =? "AbortError")%string); reflexivity.
  - injection H as <-. destruct (negb (e =? "AbortError")%string); reflexivity.
Qed.

(** A call of [loadJobs()]. *)
Lemma loadJobs_call (st : State) :
  exec loadJobs st =
    if _isRefreshing st then (st, [])
    else if aborted st then
      (set_isRefreshing false st,
       [SetRefreshLoading true; FetchStatus; SetRefreshLoading false])
    else
      (set_inflight (S (inflight st)) (set_isRefreshing true st),
       [SetRefreshLoading true; FetchStatus]).
Proof.
  methods. destruct st as [ri h a r ab c n]; cbn.
  destruct r; [reflexivity|]. destruct ab; reflexivity.
Qed.

(** Every response is a failure, a 404, or a 2xx with a job array. *)
Lemma settled_cases (r : Settled) :
  (exists error, failure r = Some error) \/
  (exists body, r = Responded 404 body) \/
  (exists status jobs, r = Responded status (JobArray jobs) /\ ok status = true).
Proof.
  destruct r as [status body | e]; [|left; eexists; reflexivity].
  unfold failure. destruct (ok status) eqn:Hok; cbn [negb].
  - destruct body as [jobs | e]; [|left; eexists; reflexivity].
    right. right. eauto.
  - destruct (Z.eqb_spec status 404) as [->|_]; [|left; eexists; reflexivity].
    right. left. eauto.
Qed.

Lemma resume_aborted (st : State) :
  loadJobs_resume (Rejected "AbortError") st =
    (Normal tt, set_isRefreshing false st, [SetRefreshLoading false]).
Proof. reflexivity. Qed.

Lemma reject_pending_run (n : nat) (st : State) :
  reject_pending n st =
    (Normal tt, Nat.iter n (set_isRefreshing false) st,
     repeat (SetRefreshLoading false) n).
Proof.
  revert st. induction n as [|n IH]; intros st; [reflexivity|].
  cbn [reject_pending]. unfold bind at 1.
  rewrite resume_aborted, IH, Nat.iter_succ_r. reflexivity.
Qed.

Lemma iter_isRefreshing (n : nat) (st : State) :
  _isRefreshing st = false -> Nat.iter n (set_isRefreshing false) st = st.
Proof.
  intros H. induction n as [|n IH]; [reflexivity|]. rewrite Nat.iter_succ, IH.
  destruct st; cbn in *; now subst.
Qed.

(** [cleanup()], and the pending call it aborts. *)
Lemma step_pageCloses (st : State) :
  step PageCloses st =
    Some ({| refreshInterval := None;
             lastJobsHash := None;
             hasActiveJobs := hasActiveJobs st;
             _isRefreshing := false;
             aborted := true;
             counters := counters st;
             inflight := 0 |},
          match refreshInterval st with Some _ => [ClearInterval] | None => [] end ++
          [Abort] ++ repeat (SetRefreshLoading false) (inflight st))%list.
Proof.
  unfold step. f_equal. unfold exec, cleanup, stopPeriodicRefresh.
  unfold bind, get, modify, emit, ret.
  destruct st as [ri h a r ab c n]; cbn [refreshInterval inflight hasActiveJobs counters].
  destruct ri; cbn; rewrite reject_pending_run, iter_isRefreshing by reflexivity;
    reflexivity.
Qed.

(** ** What holds while the payloads conform *)

Lemma jobsHash_not_empty (jobs : list Job.t) : jobsHash jobs <> emptyHash.
Proof. unfold jobsHash, stringify_projections, JSON.array. discriminate. Qed.

Ltac fields :=
  cbn [refreshInterval lastJobsHash hasActiveJobs _isRefreshing aborted counters
       inflight set_refreshInterval set_lastJobsHash set_hasActiveJobs
       set_isRefreshing set_aborted set_counters set_inflight fst snd] in *.

Ltac close_invariant :=
  unfold invariant; cbn; repeat split; auto; try (intros; discriminate);
  try match goal with
      | He : ?h = Some emptyHash -> _, H : ?h = Some emptyHash |- _ =>
          now destruct (He H)
      end.

Lemma invariant_loadJobs (st : State) :
  invariant st -> invariant (fst (exec loadJobs st)).
Proof.
  rewrite loadJobs_call.
  destruct st as [ri h a r ab c n]. intros (Hn & Hri & Hab & He); cbn in *.
  destruct r; [close_invariant|]. destruct ab; subst; close_invariant.
Qed.

Lemma invariant_step (st : State) (e : Event) (st' : State) (effects : list Effect) :
  invariant st -> conforming e = true -> step e st = Some (st', effects) ->
  invariant st'.
Proof.
  intros Hinv Hc Hstep.
  destruct e as [| | r |]; [cbn [step] in Hstep .. | rewrite step_pageCloses in Hstep].
  - destruct (refreshInterval st); [|discriminate].
    injection Hstep as Hs. replace st' with (fst (exec loadJobs st)) by now rewrite Hs.
    now apply invariant_loadJobs.
  - injection Hstep as Hs. replace st' with (fst (exec loadJobs st)) by now rewrite Hs.
    now apply invariant_loadJobs.
  - destruct Hinv as (Hn & Hri & Hab & He).
    destruct (inflight st) as [|n] eqn:Hin; [discriminate|].
    destruct (_isRefreshing st) eqn:Hr; [|discriminate].
    destruct (aborted st) eqn:Habt; [now specialize (Hab eq_refl)|].
    injection Hn as ->.
    destruct (settled_cases r) as [[err Hf] | [[body ->] | (status & jobs & -> & Hok)]].
    + rewrite (resume_failure _ _ _ Hf) in Hstep. injection Hstep as <- _.
      destruct st; cbn in *; subst. close_invariant.
    + rewrite resume_notFound in Hstep.
      destruct st as [ri h a rr ab c n]; cbn in *. subst.
      destruct (differs h emptyHash); injection Hstep as <- _; close_invariant.
    + rewrite (resume_found _ _ _ Hok Hc) in Hstep. injection Hstep as <- _.
      destruct st as [ri h a rr ab c n]; fields. subst.
      unfold invariant; fields. split; [reflexivity|]. split; [|split].
      * destruct a, (anyActive jobs); reflexivity.
      * intros; discriminate.
      * intros H. exfalso. apply (jobsHash_not_empty jobs). congruence.
  - injection Hstep as <- _. close_invariant.
Qed.

Lemma conforming_invariant (st : State) : reachable_conforming st -> invariant st.
Proof.
  induction 1 as [|st e st' effects _ IH Hc Hstep].
  - close_invariant.
  - eapply invariant_step; eauto.
Qed.

Lemma conforming_reachable (st : State) : reachable_conforming st -> reachable st.
Proof.
  induction 1 as [|st e st' effects _ IH _ Hstep].
  - apply reachable_constructed.
  - eapply reachable_step; eauto.
Qed.

(** ** Polls *)

Lemma count_app (p : Effect -> bool) (a b : list Effect) :
  count p (a ++ b) = (count p a + count p b)%nat.
Proof. unfold count. now rewrite filter_app, length_app. Qed.

(** A poll is a call that at most issues the fetch, then the resumption. *)
Lemma run_poll (st : State) (r : Settled) (st' : State) (effects : list Effect) :
  aborted st = false ->
  run (poll r) st = Some (st', effects) ->
  exists st0 pre post,
    same_view st0 st /\
    (pre = [] \/ pre = [SetRefreshLoading true; FetchStatus]) /\
    exec (loadJobs_resume r) st0 = (st', post) /\
    effects = (pre ++ post)%list.
Proof.
  intros Hab Hrun. unfold poll in Hrun. cbn [run step] in Hrun.
  rewrite loadJobs_call, Hab in Hrun.
  destruct (_isRefreshing st) eqn:Hr.
  - rewrite Hab in Hrun. destruct (inflight st) as [|n]; [discriminate|].
    destruct (exec (loadJobs_resume r) (set_inflight n st)) as [st1 post] eqn:He.
    injection Hrun as <- <-.
    exists (set_inflight n st), [], post. rewrite app_nil_r.
    repeat split; auto.
  - fields. rewrite Hab in Hrun.
    destruct (exec (loadJobs_resume r) _) as [st1 post] eqn:He in Hrun.
    injection Hrun as <- <-.
    eexists _, _, post. rewrite app_nil_r.
    split; [|split; [right; reflexivity|split; [exact He|reflexivity]]].
    repeat split; auto.
Qed.

Ltac count_effects :=
  unfold count;
  repeat match goal with
         | |- context [if ?b then _ else _] => destruct b
         | |- context [match ?x with _ => _ end] => destruct x
         end; reflexivity.

Lemma poll_found (st st' : State) (jobs : list Job.t) (effects : list Effect) :
  aborted st = false ->
  forallb has_id jobs = true ->
  run (poll (found jobs)) st = Some (st', effects) ->
  aborted st' = false /\
  lastJobsHash st' = Some (jobsHash jobs) /\
  hasActiveJobs st' = anyActive jobs /\
  counters st' = Some (jobStats jobs) /\
  count is_render effects =
    (if differs (lastJobsHash st) (jobsHash jobs) then 1 else 0)%nat /\
  count is_stats effects = 1%nat /\
  count is_notification effects = 0%nat.
Proof.
  intros Hab Hid Hrun.
  destruct (run_poll _ _ _ _ Hab Hrun) as (st0 & pre & post & Hv & Hpre & He & ->).
  destruct Hv as (Hri & Hh & Ha & Hab0 & Hc).
  unfold found in He. rewrite resume_found in He by (auto; reflexivity).
  injection He as <- <-. fields. rewrite Hab0, Hh.
  repeat split; auto; destruct Hpre as [-> | ->]; cbn [app]; count_effects.
Qed.

Lemma run_app (a b : list Event) (st st' : State) (effects : list Effect) :
  run (a ++ b) st = Some (st', effects) ->
  exists st1 e1 e2,
    run a st = Some (st1, e1) /\ run b st1 = Some (st', e2) /\
    effects = (e1 ++ e2)%list.
Proof.
  revert st effects. induction a as [|e a IH]; intros st effects H.
  - exists st, [], effects. auto.
  - cbn [app run] in *. destruct (step e st) as [[st1 e1]|]; [|discriminate].
    destruct (run (a ++ b) st1) as [[st2 e2]|] eqn:Hr; [|discriminate].
    injection H as <- <-.
    destruct (IH _ _ Hr) as (st3 & e3 & e4 & Ha & Hb & ->).
    rewrite Ha. exists st3, (e1 ++ e3)%list, e4. now rewrite app_assoc.
Qed.

(** Polls that repeat the stored fingerprint never reach [renderJobs]. *)
Lemma polls_repeat (hash : string) (again : list (list Job.t))
      (st st' : State) (effects : list Effect) :
  aborted st = false ->
  lastJobsHash st = Some hash ->
  Forall (fun jobs => jobsHash jobs = hash /\ forallb has_id jobs = true) again ->
  run (polls (map found again)) st = Some (st', effects) ->
  count is_render effects = 0%nat.
Proof.
  intros Hab Hh Hall. revert st effects Hab Hh.
  induction Hall as [|jobs again [Hj Hid] _ IH]; intros st effects Hab Hh Hrun.
  - injection Hrun as _ <-. reflexivity.
  - cbn [map polls flat_map] in Hrun. fold (polls (map found again)) in Hrun.
    destruct (run_app _ _ _ _ _ Hrun) as (st1 & e1 & e2 & H1 & H2 & ->).
    destruct (poll_found _ _ _ _ Hab Hid H1) as (Hab1 & Hh1 & _ & _ & Hc & _).
    rewrite count_app, Hc, Hh, Hj, differs_same.
    rewrite Hj in Hh1. now rewrite (IH _ _ Hab1 Hh1 H2).
Qed.

(** C1 — Idempotent render law.  In a sequence of polls that go through
    with conforming job lists of one and the same projection (job id,
    status, progress percentage, stage), [renderJobs] is called by the first
    poll exactly when the fingerprint of that projection differs from the
    stored one, and by none of the polls after it: at most once in all. *)
Theorem idempotent_render
        (st st' : State) (jobs : list Job.t) (again : list (list Job.t))
        (effects : list Effect) :
  aborted st = false ->
  forallb has_id jobs = true ->
  Forall (fun jobs' => map project jobs' = map project jobs /\
                       forallb has_id jobs' = true) again ->
  run (polls (map found (jobs :: again))) st = Some (st', effects) ->
  exists st1 first rest,
    run (poll (found jobs)) st = Some (st1, first) /\
    run (polls (map found again)) st1 = Some (st', rest) /\
    effects = (first ++ rest)%list /\
    count is_render first =
      (if differs (lastJobsHash st) (jobsHash jobs) then 1 else 0)%nat /\
    count is_render rest = 0%nat /\
    (count is_render effects <= 1)%nat.
Proof.
  intros Hab Hid Hall Hrun.
  cbn [map polls flat_map] in Hrun. fold (polls (map found again)) in Hrun.
  destruct (run_app _ _ _ _ _ Hrun) as (st1 & first & rest & H1 & H2 & ->).
  destruct (poll_found _ _ _ _ Hab Hid H1) as (Hab1 & Hh1 & _ & _ & Hc & _).
  assert (Hrest : count is_render rest = 0%nat).
  { apply (polls_repeat (jobsHash jobs) again st1 st'); auto.
    eapply Forall_impl; [|exact Hall]. intros jobs' [Hp Hi]. split; [|exact Hi].
    unfold jobsHash. now rewrite Hp. }
  exists st1, first, rest. repeat split; auto.
  rewrite count_app, Hc, Hrest. destruct (differs _ _); lia.
Qed.

Lemma idempotent_render_witness :
  exists st' effects,
    run (polls (map found [[queuedA]; [queuedA]; [queuedA]])) fresh = Some (st', effects) /\
    (count is_render effects <= 1)%nat.
Proof.
  destruct (run (polls (map found [[queuedA]; [queuedA]; [queuedA]])) fresh)
    as [[st' effects]|] eqn:Hrun; [|vm_compute in Hrun; discriminate].
  exists st', effects. split; [reflexivity|].
  destruct (idempotent_render fresh st' [queuedA] [[queuedA]; [queuedA]] effects
              eq_refl eq_refl
              (Forall_cons _ (conj eq_refl eq_refl)
                 (Forall_cons _ (conj eq_refl eq_refl) (Forall_nil _))) Hrun)
    as (st1 & first & rest & _ & _ & _ & _ & _ & Hle).
  exact Hle.
Defined.

(** ** The guard *)

Lemma keeps_ret {A} (a : A) : keeps_inflight (ret a).
Proof. intros st c st' e H. now injection H as _ <- _. Qed.

Lemma keeps_throw {A} (name : string) : keeps_inflight (@throw A name).
Proof. intros st c st' e H. now injection H as _ <- _. Qed.

Lemma keeps_emit (x : Effect) : keeps_inflight (emit x).
Proof. intros st c st' e H. now injection H as _ <- _. Qed.

Lemma keeps_get : keeps_inflight get.
Proof. intros st c st' e H. now injection H as _ <- _. Qed.

Lemma keeps_modify (f : State -> State) :
  (forall st, inflight (f st) = inflight st) -> keeps_inflight (modify f).
Proof. intros Hf st c st' e H. injection H as _ <- _. apply Hf. Qed.

Lemma keeps_bind {A B} (m : M A) (f : A -> M B) :
  keeps_inflight m -> (forall a, keeps_inflight (f a)) -> keeps_inflight (bind m f).
Proof.
  intros Hm Hf st c st' e H. unfold bind in H.
  destruct (m st) as [[[a|name] st1] e1] eqn:Em.
  - destruct (f a st1) as [[r st2] e2] eqn:Ef. injection H as _ <- _.
    rewrite (Hf _ _ _ _ _ Ef). eapply Hm; eauto.
  - injection H as _ <- _. eapply Hm; eauto.
Qed.

Lemma keeps_try_catch {A} (m : M A) (h : string -> M A) :
  keeps_inflight m -> (forall name, keeps_inflight (h name)) ->
  keeps_inflight (try_catch m h).
Proof.
  intros Hm Hh st c st' e H. unfold try_catch in H.
  destruct (m st) as [[[a|name] st1] e1] eqn:Em.
  - injection H as _ <- _. eapply Hm; eauto.
  - destruct (h name st1) as [[r st2] e2] eqn:Eh. injection H as _ <- _.
    rewrite (Hh _ _ _ _ _ Eh). eapply Hm; eauto.
Qed.

Lemma keeps_finally {A} (m : M A) (final : M unit) :
  keeps_inflight m -> keeps_inflight final -> keeps_inflight (finally m final).
Proof.
  intros Hm Hf st c st' e H. unfold finally in H.
  destruct (m st) as [[r st1] e1] eqn:Em.
  destruct (final st1) as [[[u|name] st2] e2] eqn:Ef; injection H as _ <- _;
    rewrite (Hf _ _ _ _ Ef); eapply Hm; eauto.
Qed.

Lemma keeps_when (b : bool) (m : M unit) :
  keeps_inflight m -> keeps_inflight (when b m).
Proof. destruct b; [auto | intros _; apply keeps_ret]. Qed.

Ltac keeps := repeat (intros; first
  [ apply keeps_bind | apply keeps_when | apply keeps_ret | apply keeps_throw
  | apply keeps_emit | apply keeps_get | apply keeps_try_catch | apply keeps_finally
  | apply keeps_modify; intros []; reflexivity
  | match goal with
    | |- keeps_inflight (if ?b then _ else _) => destruct b
    | |- keeps_inflight (match ?x with _ => _ end) => destruct x
    end ]).

Lemma keeps_optimizeRefreshInterval : keeps_inflight optimizeRefreshInterval.
Proof. unfold optimizeRefreshInterval, stopPeriodicRefresh. keeps. Qed.

Lemma keeps_loadJobs_resume (r : Settled) : keeps_inflight (loadJobs_resume r).
Proof.
  unfold loadJobs_resume, loadJobs_try, loadJobs_catch, loadJobs_finally,
    updateJobStats, updateStats, showNotification, renderJobs, renderEmptyState.
  pose proof keeps_optimizeRefreshInterval.
  keeps; auto.
Qed.

Lemma resume_clears_guard (r : Settled) (st : State) :
  _isRefreshing (fst (exec (loadJobs_resume r) st)) = false.
Proof.
  unfold exec, loadJobs_resume, finally.
  destruct (try_catch (loadJobs_try r) loadJobs_catch st) as [[c st1] e1].
  reflexivity.
Qed.

(** However the fetch settles, the abort signal is left alone, and the
    empty fingerprint is never stored without the zeroed counters. *)
Lemma resume_view (r : Settled) (st : State) :
  aborted (fst (exec (loadJobs_resume r) st)) = aborted st /\
  ((lastJobsHash st = Some emptyHash -> counters st = Some noStats) ->
   lastJobsHash (fst (exec (loadJobs_resume r) st)) = Some emptyHash ->
   counters (fst (exec (loadJobs_resume r) st)) = Some noStats).
Proof.
  destruct (settled_cases r) as [[err Hf] | [[body ->] | (status & jobs & -> & Hok)]].
  - rewrite (resume_failure _ _ _ Hf). destruct st; cbn. auto.
  - rewrite resume_notFound. destruct (differs _ _); destruct st; cbn; auto.
  - destruct (forallb has_id jobs) eqn:Hid.
    + rewrite (resume_found _ _ _ Hok Hid). fields. split; [reflexivity|].
      intros _ H. exfalso. apply (jobsHash_not_empty jobs). congruence.
    + destruct (differs (lastJobsHash st) (jobsHash jobs)) eqn:Hd.
      * rewrite (resume_render_throws _ _ _ Hok Hid Hd). destruct st; cbn. auto.
      * rewrite (resume_found_same _ _ _ Hok Hd). fields. split; [reflexivity|].
        intros _ H. apply differs_false in Hd. exfalso.
        apply (jobsHash_not_empty jobs). congruence.
Qed.

Lemma guarded_loadJobs (st : State) :
  guarded st -> guarded (fst (exec loadJobs st)).
Proof.
  rewrite loadJobs_call. intros (Hn & Hab & He).
  destruct st as [ri h a r ab c n]; fields.
  destruct r; [repeat split; assumption|].
  destruct ab; fields; unfold guarded; fields.
  - repeat split; auto.
  - subst n. repeat split; [discriminate | exact He].
Qed.

Lemma guarded_step (st : State) (e : Event) (st' : State) (effects : list Effect) :
  guarded st -> step e st = Some (st', effects) -> guarded st'.
Proof.
  intros Hg Hstep.
  destruct e as [| | r |]; [cbn [step] in Hstep .. | rewrite step_pageCloses in Hstep].
  - destruct (refreshInterval st); [|discriminate].
    injection Hstep as Hs. replace st' with (fst (exec loadJobs st)) by now rewrite Hs.
    now apply guarded_loadJobs.
  - injection Hstep as Hs. replace st' with (fst (exec loadJobs st)) by now rewrite Hs.
    now apply guarded_loadJobs.
  - destruct Hg as (Hn & Hab & He).
    destruct (inflight st) as [|n] eqn:Hin; [discriminate|].
    destruct (_isRefreshing st) eqn:Hr; [|discriminate].
    injection Hn as ->. injection Hstep as Hs.
    set (r' := if aborted st then Rejected "AbortError" else r) in Hs.
    pose proof (resume_clears_guard r' (set_inflight 0 st)) as Hguard.
    destruct (resume_view r' (set_inflight 0 st)) as [_ Hempty].
    assert (Hkeep : inflight (fst (exec (loadJobs_resume r') (set_inflight 0 st))) = 0%nat).
    { unfold exec. destruct (loadJobs_resume r' (set_inflight 0 st)) as [[c st2] e2] eqn:Hm.
      cbn [fst]. now rewrite (keeps_loadJobs_resume _ _ _ _ _ Hm). }
    rewrite Hs in Hguard, Hempty, Hkeep. fields.
    unfold guarded. rewrite Hguard, Hkeep.
    split; [reflexivity|]. split; [reflexivity|]. now apply Hempty.
  - injection Hstep as <- _. unfold guarded. fields.
    repeat split; intros; discriminate.
Qed.

Lemma reachable_guarded (st : State) : reachable st -> guarded st.
Proof.
  induction 1 as [|st e st' effects _ IH Hstep].
  - unfold guarded. cbn. repeat split; intros; discriminate.
  - eapply guarded_step; eauto.
Qed.

(** C2 — Mutual exclusion.  In every reachable state at most one status
    request is pending; a call of [loadJobs] made while one is pending
    returns at once, changes nothing and fetches nothing; and whenever the
    pending fetch settles, however it does (a job array, a 404, a failure, a
    payload that makes rendering throw) or is aborted by [cleanup], the
    guard [_isRefreshing] is clear afterwards and no request is pending. *)
Theorem mutual_exclusion (st : State) :
  reachable st ->
  (inflight st <= 1)%nat /\
  ((0 < inflight st)%nat -> exec loadJobs st = (st, [])) /\
  (forall r st' effects,
      step (FetchSettles r) st = Some (st', effects) ->
      _isRefreshing st' = false /\ inflight st' = 0%nat) /\
  (forall st' effects,
      step PageCloses st = Some (st', effects) ->
      _isRefreshing st' = false /\ inflight st' = 0%nat).
Proof.
  intros Hr. destruct (reachable_guarded _ Hr) as (Hn & Hab & _).
  split; [|split; [|split]].
  - rewrite Hn. destruct (_isRefreshing st); lia.
  - intros Hpos. rewrite loadJobs_call.
    destruct (_isRefreshing st); [reflexivity | rewrite Hn in Hpos; lia].
  - intros r st' effects H. cbn [step] in H.
    destruct (inflight st) as [|n] eqn:Hin; [discriminate|].
    injection H as H.
    pose proof (resume_clears_guard (if aborted st then Rejected "AbortError" else r)
                                    (set_inflight n st)) as Hg.
    rewrite H in Hg. split; [exact Hg|].
    unfold exec in H.
    destruct (loadJobs_resume _ _) as [[c st2] e2] eqn:Hm. injection H as <- _.
    rewrite (keeps_loadJobs_resume _ _ _ _ _ Hm). fields.
    destruct (_isRefreshing st); [now injection Hn | discriminate].
  - intros st' effects H. rewrite step_pageCloses in H. injection H as <- _.
    split; reflexivity.
Qed.

Lemma mutual_exclusion_witness :
  (inflight constructed <= 1)%nat /\
  exec loadJobs constructed = (constructed, []).
Proof.
  destruct (mutual_exclusion constructed reachable_constructed) as (Hle & Hskip & _).
  split; [exact Hle | apply Hskip; cbn; lia].
Defined.

(** ** Cadence *)

Lemma anyActive_existsb (jobs : list Job.t) :
  anyActive jobs = existsb Job.is_active jobs.
Proof.
  unfold anyActive. induction jobs as [|j jobs IH]; [reflexivity|].
  cbn [filter existsb]. destruct (Job.is_active j); [reflexivity | exact IH].
Qed.

Lemma step_settles (st st' : State) (r : Settled) (effects : list Effect) :
  reachable st ->
  step (FetchSettles r) st = Some (st', effects) ->
  exists st0,
    same_view st0 st /\ exec (loadJobs_resume r) st0 = (st', effects).
Proof.
  intros Hr Hstep. destruct (reachable_guarded _ Hr) as (Hn & Hab & _).
  cbn [step] in Hstep. destruct (inflight st) as [|n]; [discriminate|].
  destruct (_isRefreshing st); [|discriminate].
  destruct (aborted st); [now specialize (Hab eq_refl)|].
  injection Hstep as Hstep. exists (set_inflight n st).
  split; [repeat split | exact Hstep].
Qed.

Lemma settles_not_aborted (st st' : State) (r : Settled) (effects : list Effect) :
  reachable st ->
  step (FetchSettles r) st = Some (st', effects) ->
  aborted st = false.
Proof.
  intros Hr Hstep. destruct (reachable_guarded _ Hr) as (Hn & Hab & _).
  cbn [step] in Hstep. destruct (inflight st) as [|n]; [discriminate|].
  destruct (aborted st); [|reflexivity].
  rewrite (Hab eq_refl) in Hn. discriminate.
Qed.

(** C3, as amended — Cadence.  On a manager that has so far received
    conforming payloads only (every job of every array carried its
    [job_id], so no render has thrown): after a poll that brings a
    conforming job array the timer runs at the fast period (1500 ms) when
    some job is running or queued and at the slow period (10000 ms) when
    the array is empty or holds terminal jobs only, and it is re-armed
    exactly when the active flag flipped.  After a 404 the timer runs at
    the slow period, and it is re-armed exactly when the stored fingerprint
    was not yet the empty one, whether or not the active flag flipped. *)
Theorem cadence (st st' : State) (r : Settled) (effects : list Effect) :
  reachable_conforming st ->
  conforming (FetchSettles r) = true ->
  step (FetchSettles r) st = Some (st', effects) ->
  (forall status jobs,
      r = Responded status (JobArray jobs) -> ok status = true ->
      hasActiveJobs st' = existsb Job.is_active jobs /\
      refreshInterval st' = Some (if existsb Job.is_active jobs then fast else slow) /\
      count is_arming effects =
        (if Bool.eqb (hasActiveJobs st) (existsb Job.is_active jobs) then 0 else 1)%nat) /\
  (forall body,
      r = Responded 404 body ->
      hasActiveJobs st' = false /\
      refreshInterval st' = Some slow /\
      count is_arming effects =
        (if differs (lastJobsHash st) emptyHash then 1 else 0)%nat).
Proof.
  intros Hc0 Hc Hstep. pose proof (conforming_reachable _ Hc0) as Hr.
  destruct (step_settles _ _ _ _ Hr Hstep) as (st0 & Hv & He).
  destruct Hv as (Hri & Hh & Ha & Hab0 & Hcs).
  destruct (conforming_invariant _ Hc0) as (_ & Htimer & Hab & Hempty).
  rewrite (settles_not_aborted _ _ _ _ Hr Hstep) in Htimer.
  split.
  - intros status jobs -> Hok. cbn [conforming] in Hc.
    rewrite (resume_found _ _ _ Hok Hc) in He. injection He as <- <-. fields.
    rewrite Hri, Ha, Htimer, <- anyActive_existsb.
    repeat split.
    + destruct (hasActiveJobs st), (anyActive jobs); reflexivity.
    + destruct (hasActiveJobs st), (anyActive jobs); cbn [eqb negb]; count_effects.
  - intros body ->. rewrite resume_notFound in He. rewrite Hh in He.
    destruct (differs (lastJobsHash st) emptyHash) eqn:Hd; injection He as <- <-; fields.
    + repeat split. rewrite Hri, Htimer. reflexivity.
    + apply differs_false in Hd. destruct (Hempty Hd) as [Hact _].
      rewrite Ha, Hri, Htimer, Hact. repeat split.
Qed.

Lemma cadence_witness :
  exists st' effects,
    step (FetchSettles (found [queuedA])) constructed = Some (st', effects) /\
    refreshInterval st' = Some fast /\ count is_arming effects = 1%nat.
Proof.
  eexists _, _. split; [reflexivity|].
  edestruct (cadence constructed) with (r := found [queuedA]) as [Hfound _];
    [apply conforming_constructed | reflexivity | reflexivity |].
  destruct (Hfound 200 [queuedA] eq_refl eq_refl) as (_ & Hri & Harm).
  split; [exact Hri | exact Harm].
Defined.

(** C3, as stated, fails: the first 404 after construction re-arms the
    timer although the active flag was clear before it and is clear after
    it. *)
Lemma cadence_rearm_counterexample :
  let st := constructed in
  let after := step (FetchSettles notFound) st in
  reachable_conforming st /\
  option_map (fun x => hasActiveJobs (fst x)) after = Some (hasActiveJobs st) /\
  option_map (fun x => count is_arming (snd x)) after = Some 1%nat.
Proof.
  split; [apply conforming_constructed|]. split; reflexivity.
Qed.

(** Why the history matters: a payload whose render throws overwrites the
    active flag without re-arming the timer, so the next well-formed poll
    finds the flag in place and leaves the timer alone.  Here a running
    job is polled at the slow period. *)
Example cadence_after_throw :
  exists st' effects,
    run [FetchSettles (found [nameless]); LoadJobsCalled; FetchSettles (found [runningA])]
        constructed = Some (st', effects) /\
    hasActiveJobs st' = true /\
    refreshInterval st' = Some slow /\
    count is_arming effects = 0%nat.
Proof. eexists _, _. split; [reflexivity|]. repeat split. Qed.

(** ** The fingerprint *)

Example jobsHash_runningA :
  jobsHash [runningA] =
    "[{" ++ JSON.quote "id" ++ ":" ++ JSON.quote "A" ++ "," ++
    JSON.quote "status" ++ ":" ++ JSON.quote "running" ++ "," ++
    JSON.quote "progress" ++ ":40.2}]".
Proof. reflexivity. Qed.

(** C4, as amended — Fingerprint projection.  The fingerprint is computed
    from four values per job and from nothing else: the job id, the status,
    the progress percentage as received (not rounded) and the current
    stage.  Two job lists that agree on these four values, job by job, have
    the same fingerprint. *)
Theorem fingerprint_projection (jobs jobs' : list Job.t) :
  Forall2 (fun j j' =>
             Job.job_id j = Job.job_id j' /\
             Job.status j = Job.status j' /\
             Job.progress_percent j = Job.progress_percent j' /\
             currentStage j = currentStage j') jobs jobs' ->
  jobsHash jobs = jobsHash jobs'.
Proof.
  intros H. unfold jobsHash. f_equal.
  induction H as [|j j' jobs jobs' (Hid & Hs & Hp & Hst) _ IH]; [reflexivity|].
  cbn [map]. rewrite IH. f_equal. unfold project. now rewrite Hid, Hs, Hp, Hst.
Qed.

Lemma fingerprint_projection_witness :
  jobsHash [stagedA 3 None] = jobsHash [stagedA 5 (Some "x")].
Proof.
  apply (fingerprint_projection [stagedA 3 None] [stagedA 5 (Some "x")]).
  repeat constructor.
Defined.

(** C4, as stated, fails: 40.2 and 40.4 round to the same percentage, and
    the two fingerprints differ. *)
Lemma fingerprint_rounding_counterexample :
  map rounded_projection [runningA] = map rounded_projection [runningA'] /\
  jobsHash [runningA] <> jobsHash [runningA'].
Proof. split; [reflexivity | discriminate]. Qed.

(** The fingerprint tells apart a change in any of the four values. *)
Example fingerprint_sensitive :
  jobsHash [sampleJob "A" "queued" (Num.of_Z 0)] <> jobsHash [sampleJob "B" "queued" (Num.of_Z 0)] /\
  jobsHash [sampleJob "A" "queued" (Num.of_Z 0)] <> jobsHash [sampleJob "A" "running" (Num.of_Z 0)] /\
  jobsHash [sampleJob "A" "queued" (Num.of_Z 0)] <> jobsHash [sampleJob "A" "queued" (Num.of_Z 1)] /\
  jobsHash [stagedA 3 None] <> jobsHash [runningA].
Proof. repeat split; discriminate. Qed.

(** ** The empty set *)

Lemma poll_notFound (st st' : State) (body : Body) (effects : list Effect) :
  aborted st = false ->
  run (poll (Responded 404 body)) st = Some (st', effects) ->
  aborted st' = false /\
  lastJobsHash st' = Some emptyHash /\
  count is_empty_render effects =
    (if differs (lastJobsHash st) emptyHash then 1 else 0)%nat /\
  count is_render effects = 0%nat /\
  count is_notification effects = 0%nat /\
  count is_console effects = 0%nat.
Proof.
  intros Hab Hrun.
  destruct (run_poll _ _ _ _ Hab Hrun) as (st0 & pre & post & Hv & Hpre & He & ->).
  destruct Hv as (Hri & Hh & Ha & Hab0 & Hc).
  rewrite resume_notFound, Hh in He.
  destruct (differs (lastJobsHash st) emptyHash) eqn:Hd; injection He as <- <-; fields.
  - rewrite Hab0. repeat split; auto; destruct Hpre as [-> | ->]; cbn [app]; count_effects.
  - rewrite Hab0, Hh, (differs_false _ _ Hd).
    repeat split; auto; destruct Hpre as [-> | ->]; reflexivity.
Qed.

(** C5 — Empty-set handling.  A 404 is the empty job set: it shows no
    notification and logs no error.  The empty state is gated by the
    fingerprint: over a 404 followed by another 404 it is rendered once (by
    the first, unless the stored fingerprint was the empty one already) and
    never by the second. *)
Theorem empty_set_once (st st' : State) (effects : list Effect) :
  aborted st = false ->
  run (polls [notFound; notFound]) st = Some (st', effects) ->
  count is_notification effects = 0%nat /\
  count is_console effects = 0%nat /\
  count is_empty_render effects =
    (if differs (lastJobsHash st) emptyHash then 1 else 0)%nat /\
  exists st1 first second,
    run (poll notFound) st = Some (st1, first) /\
    run (poll notFound) st1 = Some (st', second) /\
    effects = (first ++ second)%list /\
    count is_empty_render second = 0%nat.
Proof.
  intros Hab Hrun.
  change (polls [notFound; notFound]) with (poll notFound ++ poll notFound)%list in Hrun.
  destruct (run_app _ _ _ _ _ Hrun) as (st1 & first & second & H1 & H2 & ->).
  destruct (poll_notFound _ _ _ _ Hab H1) as (Hab1 & Hh1 & Hc1 & _ & Hn1 & Hl1).
  destruct (poll_notFound _ _ _ _ Hab1 H2) as (_ & _ & Hc2 & _ & Hn2 & Hl2).
  rewrite Hh1, differs_same in Hc2.
  rewrite !count_app, Hn1, Hn2, Hl1, Hl2, Hc1, Hc2.
  split; [reflexivity|]. split; [reflexivity|]. split; [apply Nat.add_0_r|].
  exists st1, first, second. auto.
Qed.

Lemma empty_set_once_witness :
  exists st' effects,
    run (polls [notFound; notFound]) fresh = Some (st', effects) /\
    count is_empty_render effects = 1%nat /\
    count is_notification effects = 0%nat.
Proof.
  destruct (run (polls [notFound; notFound]) fresh) as [[st' effects]|] eqn:Hrun;
    [|vm_compute in Hrun; discriminate].
  exists st', effects. split; [reflexivity|].
  destruct (empty_set_once fresh st' effects eq_refl Hrun) as (Hn & _ & Hc & _).
  split; [exact Hc | exact Hn].
Defined.

(** ** The counters *)

(** C6, as amended — Counter liveness.  After every poll that goes
    through, from any reachable state, the published counters are the
    numbers of completed, running and queued jobs of that poll's snapshot
    (all zero for a 404).  A poll that brings a conforming job array calls
    [updateStats] once with these numbers whether or not the fingerprint
    changed, so also when [renderJobs] is not called.  A 404 calls
    [updateStats], with zeros, only when the stored fingerprint is not yet
    the empty one: a repeated 404 publishes nothing, the counters that the
    poller wrote last being zero already. *)
Theorem counter_liveness (st st' : State) (r : Settled) (effects : list Effect) :
  reachable st ->
  conforming (FetchSettles r) = true ->
  step (FetchSettles r) st = Some (st', effects) ->
  (forall status jobs,
      r = Responded status (JobArray jobs) -> ok status = true ->
      counters st' =
        Some {| completed := List.length (filter (Job.status_is "completed") jobs);
                running := List.length (filter (Job.status_is "running") jobs);
                queued := List.length (filter (Job.status_is "queued") jobs) |} /\
      In (UpdateStats (jobStats jobs)) effects /\
      count is_stats effects = 1%nat /\
      count is_render effects =
        (if differs (lastJobsHash st) (jobsHash jobs) then 1 else 0)%nat) /\
  (forall body,
      r = Responded 404 body ->
      counters st' = Some {| completed := 0; running := 0; queued := 0 |} /\
      count is_stats effects =
        (if differs (lastJobsHash st) emptyHash then 1 else 0)%nat /\
      (differs (lastJobsHash st) emptyHash = true -> In (UpdateStats noStats) effects)).
Proof.
  intros Hr Hc Hstep.
  destruct (step_settles _ _ _ _ Hr Hstep) as (st0 & Hv & He).
  destruct Hv as (Hri & Hh & Ha & Hab0 & Hcs).
  destruct (reachable_guarded _ Hr) as (_ & _ & Hempty).
  split.
  - intros status jobs -> Hok. cbn [conforming] in Hc.
    rewrite (resume_found _ _ _ Hok Hc) in He. injection He as <- <-. fields.
    rewrite Hh. repeat split.
    + apply in_or_app. right. now left.
    + count_effects.
    + count_effects.
  - intros body ->. rewrite resume_notFound, Hh in He.
    destruct (differs (lastJobsHash st) emptyHash) eqn:Hd; injection He as <- <-; fields.
    + split; [reflexivity|]. split; [count_effects|]. intros _. right. now left.
    + apply differs_false in Hd. rewrite Hcs.
      split; [now apply Hempty|]. split; [reflexivity | discriminate].
Qed.

Lemma run_reachable (events : list Event) :
  forall st st' effects,
    reachable st -> run events st = Some (st', effects) -> reachable st'.
Proof.
  induction events as [|e rest IH]; intros st st' effects Hr Hrun; cbn [run] in Hrun.
  - now injection Hrun as <- _.
  - destruct (step e st) as [[st1 e1]|] eqn:Hstep; [|discriminate].
    destruct (run rest st1) as [[st2 e2]|] eqn:Hrest; [|discriminate].
    injection Hrun as <- _. eapply IH; [|exact Hrest].
    eapply reachable_step; eauto.
Qed.

Lemma counter_liveness_witness :
  exists st1 e1 st' effects,
    run [FetchSettles (found [queuedA; completedA]); LoadJobsCalled] constructed =
      Some (st1, e1) /\
    step (FetchSettles (found [queuedA; completedA])) st1 = Some (st', effects) /\
    counters st' = Some {| completed := 1; running := 0; queued := 1 |} /\
    count is_stats effects = 1%nat /\
    count is_render effects = 0%nat.
Proof.
  destruct (run [FetchSettles (found [queuedA; completedA]); LoadJobsCalled] constructed)
    as [[st1 e1]|] eqn:Hrun; [|vm_compute in Hrun; discriminate].
  pose proof (run_reachable _ _ _ _ reachable_constructed Hrun) as Hr.
  destruct (step (FetchSettles (found [queuedA; completedA])) st1)
    as [[st' effects]|] eqn:Hstep;
    [|vm_compute in Hrun; injection Hrun as <- _; vm_compute in Hstep; discriminate].
  exists st1, e1, st', effects. split; [reflexivity|]. split; [exact Hstep|].
  destruct (counter_liveness st1 st' (found [queuedA; completedA]) effects Hr eq_refl Hstep)
    as [Hfound _].
  destruct (Hfound 200 [queuedA; completedA] eq_refl eq_refl)
    as (Hcounters & _ & Hs & Hrender).
  split; [exact Hcounters|]. split; [exact Hs|].
  rewrite Hrender. vm_compute in Hrun. injection Hrun as <- _. reflexivity.
Defined.

(** C6, as stated, fails on the 404: the second of two 404 polls goes
    through, without notification, and does not call [updateStats]. *)
Lemma counter_liveness_404_counterexample :
  exists st1 e1 st2 e2,
    step (FetchSettles notFound) constructed = Some (st1, e1) /\
    run (poll notFound) st1 = Some (st2, e2) /\
    lastJobsHash st2 = lastJobsHash st1 /\
    count is_notification e2 = 0%nat /\
    count is_stats e2 = 0%nat.
Proof.
  eexists _, _, _, _. split; [reflexivity|]. split; [reflexivity|]. repeat split.
Qed.

(** ** Failures *)

(** The [try] block throws on the transport and HTTP failures and on the
    failure in rendering, and on nothing else. *)
Lemma thrown_classified (r : Settled) (st : State) :
  thrown r st =
    match failure r with
    | Some error => Some error
    | None => if render_failure r st then Some "TypeError" else None
    end.
Proof.
  destruct (settled_cases r) as [[err Hf] | [[body ->] | (status & jobs & -> & Hok)]].
  - rewrite Hf. unfold thrown, failure in *.
    destruct r as [status body | e]; [|exact Hf].
    unfold loadJobs_try. destruct (negb (ok status)).
    + destruct (status =? 404); [discriminate | exact Hf].
    + destruct body as [jobs | e]; [discriminate | exact Hf].
  - assert (Hnone : (if render_failure (Responded 404 body) st
                      then Some "TypeError" else None) = @None string)
      by (destruct body; reflexivity).
    change (failure (Responded 404 body)) with (@None string). cbv iota. rewrite Hnone.
    unfold thrown, loadJobs_try.
    cbn [ok negb Z.leb Z.compare Pos.compare Pos.compare_cont andb Z.eqb Pos.eqb].
    methods. destruct st as [ri h a rr ab c n]; cbn [lastJobsHash].
    destruct (differs _ _); [destruct ri|]; reflexivity.
  - unfold thrown, failure, render_failure. rewrite Hok. cbn [negb andb].
    unfold loadJobs_try. rewrite Hok. cbn [negb].
    destruct (forallb has_id jobs) eqn:Hid; cbn [negb]; rewrite ?andb_false_r, ?andb_true_r.
    + destruct (renderJobs_conforming jobs Hid) as [content Hrender].
      methods. rewrite Hrender. destruct st as [ri h a rr ab c n]; cbn [lastJobsHash].
      destruct (differs _ _); [destruct jobs|];
        cbn -[existsb filter Nat.ltb Render.sort jobStats jobsHash];
        destruct (negb (eqb _ _)); destruct ri; destruct (0 <? _)%nat;
        cbn -[existsb filter Nat.ltb Render.sort jobStats jobsHash];
        destruct (existsb _ _); reflexivity.
    + methods. rewrite (renderJobs_throws _ Hid).
      destruct st as [ri h a rr ab c n]; cbn [lastJobsHash].
      destruct (differs _ _); [destruct jobs; [discriminate | reflexivity]|].
      cbn -[existsb filter Nat.ltb jobStats jobsHash];
        destruct (negb (eqb _ _)); destruct ri; destruct (0 <? _)%nat;
        cbn -[existsb filter Nat.ltb jobStats jobsHash];
        destruct (existsb _ _); reflexivity.
Qed.




(** ** Disposal *)

Lemma pageCloses_disposed (st st' : State) (effects : list Effect) :
  step PageCloses st = Some (st', effects) ->
  disposed st' /\ count is_work effects = 0%nat /\ In Abort effects.
Proof.
  rewrite step_pageCloses. intros H. injection H as <- <-.
  split; [repeat split|]. split.
  - rewrite !count_app.
    assert (Hrep : forall n, count is_work (repeat (SetRefreshLoading false) n) = 0%nat)
      by (induction n; auto).
    change (count is_work (Abort :: repeat (SetRefreshLoading false) (inflight st)))
      with (count is_work (repeat (SetRefreshLoading false) (inflight st))).
    rewrite Hrep. destruct (refreshInterval st); reflexivity.
  - apply in_or_app. right. now left.
Qed.

(** Once disposed, always disposed: the timer never fires, no response is
    delivered, and a call of [loadJobs] neither renders nor notifies nor
    arms a timer. *)
Lemma disposed_step (st st' : State) (e : Event) (effects : list Effect) :
  disposed st ->
  step e st = Some (st', effects) ->
  disposed st' /\ count is_work effects = 0%nat /\
  e <> TimerFires /\ (forall r, e <> FetchSettles r).
Proof.
  intros (Hab & Hri & Hn & Hr) Hstep. destruct e as [| | r |].
  - cbn [step] in Hstep. rewrite Hri in Hstep. discriminate.
  - cbn [step] in Hstep. rewrite loadJobs_call, Hr, Hab in Hstep.
    injection Hstep as <- <-. destruct st; fields; subst.
    repeat split; discriminate.
  - cbn [step] in Hstep. rewrite Hn in Hstep. discriminate.
  - destruct (pageCloses_disposed _ _ _ Hstep) as (Hd & Hw & _).
    repeat split; try apply Hd; auto; discriminate.
Qed.

Lemma disposal_is_final (st st1 st' : State) (e1 effects : list Effect)
      (events : list Event) :
  step PageCloses st = Some (st1, e1) ->
  run events st1 = Some (st', effects) ->
  disposed st' /\ count is_work effects = 0%nat /\
  ~ In TimerFires events /\ (forall r, ~ In (FetchSettles r) events).
Proof.
  intros Hclose. destruct (pageCloses_disposed _ _ _ Hclose) as (Hd & _).
  clear Hclose. revert st1 effects Hd.
  induction events as [|e events IH]; intros st1 effects Hd Hrun.
  - injection Hrun as <- <-. repeat split; auto; apply Hd.
  - cbn [run] in Hrun. destruct (step e st1) as [[st2 e2]|] eqn:Hs; [|discriminate].
    destruct (run events st2) as [[st3 e3]|] eqn:Hr; [|discriminate].
    injection Hrun as <- <-.
    destruct (disposed_step _ _ _ _ Hd Hs) as (Hd2 & Hw2 & Ht & Hf).
    destruct (IH _ _ Hd2 Hr) as (Hd3 & Hw3 & Ht3 & Hf3).
    rewrite count_app, Hw2, Hw3. repeat split; try apply Hd3.
    + intros [H|H]; [now apply Ht | now apply Ht3].
    + intros r [H|H]; [now apply (Hf r) | now apply (Hf3 r)].
Qed.

(** C7 — Disposal finality, evaluated where it fails.  The first poll
    brings a running job, then the page closes: [cleanup] stops the timer,
    aborts the request and resets the fingerprint and the guard to their
    initial values, but the active flag stays set, while the constructor
    starts it cleared. *)
Theorem cleanup_keeps_active_flag :
  let closed := run [FetchSettles (found [runningA]); PageCloses] constructed in
  option_map (fun x => refreshInterval (fst x)) closed = Some None /\
  option_map (fun x => aborted (fst x)) closed = Some true /\
  option_map (fun x => lastJobsHash (fst x)) closed = Some (lastJobsHash fresh) /\
  option_map (fun x => _isRefreshing (fst x)) closed = Some (_isRefreshing fresh) /\
  option_map (fun x => hasActiveJobs (fst x)) closed = Some true /\
  hasActiveJobs fresh = false.
Proof. repeat split. Qed.

(** [cleanup] never writes the active flag. *)
Lemma cleanup_hasActiveJobs (st st' : State) (effects : list Effect) :
  step PageCloses st = Some (st', effects) -> hasActiveJobs st' = hasActiveJobs st.
Proof. rewrite step_pageCloses. intros H. now injection H as <- _. Qed.

(** ** Defensive rendering *)

Lemma renderJobs_cards (job : Job.t) (others : list Job.t) :
  forallb has_id (job :: others) = true ->
  exists cards,
    Render.renderJobs (job :: others) =
      Normal (Render.sort (job :: others), Render.JobCards cards) /\
    Forall2 (fun j c => Render.renderJob j = Normal c)
            (Render.sort (job :: others)) cards.
Proof.
  intros H. unfold Render.renderJobs.
  destruct (mapThrowing_all Render.renderJob (Render.sort (job :: others)))
    as [cards [Hc HF]].
  - intros a Ha. apply renderJob_has_id.
    rewrite (forallb_perm _ _ _ (sort_perm (job :: others))) in H.
    rewrite forallb_forall in H. now apply H.
  - rewrite Hc. eauto.
Qed.

Lemma unknown_status (job : Job.t) :
  Job.known_status job = false ->
  Job.status_is "running" job = false /\ Job.status_is "queued" job = false /\
  Job.status_is "completed" job = false /\ Job.status_is "failed" job = false.
Proof.
  unfold Job.known_status. intros H.
  apply orb_false_iff in H as [H H4]. apply orb_false_iff in H as [H H3].
  apply orb_false_iff in H as [H1 H2]. auto.
Qed.

(** C9 — Defensive payload handling.  Take a job that carries its
    [job_id], among other such jobs.  If its status is none of queued,
    running, completed, failed (or is absent), then [renderJob] returns a
    card labelled "Sconosciuto" (unknown), [renderJobs] sorts and renders
    the whole list without throwing (the comparator yields NaN against any
    job, which [sort] reads as equal), and the job is counted in none of
    the three counters and not as active.  Whatever its status, [renderJob]
    does not throw, and the optional fields that are absent take their
    defaults: no progress, result or error section without [progress],
    [result] or [detail]; 0% and an empty bar without [progress_percent];
    zero counts, the stage "In Corso" and no URL rows for the absent keys
    of [progress]; zero counts for the absent keys of [result]. *)
Theorem defensive_payload (job : Job.t) (others : list Job.t) :
  has_id job = true ->
  forallb has_id others = true ->
  (Job.known_status job = false ->
   (exists card,
       Render.renderJob job = Normal card /\
       Render.statusText (Render.jobBadge card) = "Sconosciuto") /\
   (forall j, Render.compareJobs job j = None /\ Render.compareJobs j job = None) /\
   (exists sorted cards,
       Render.renderJobs (job :: others) = Normal (sorted, Render.JobCards cards) /\
       Permutation (job :: others) sorted /\
       Forall2 (fun j c => Render.renderJob j = Normal c) sorted cards) /\
   jobStats (job :: others) = jobStats others /\
   Job.is_active job = false) /\
  (exists card,
      Render.renderJob job = Normal card /\
      (Job.progress job = None -> Render.progressSection card = None) /\
      (Job.result job = None -> Render.resultSection card = None) /\
      (Job.detail job = None -> Render.errorDetail card = None) /\
      (forall p, Job.progress job = Some p ->
         exists v,
           Render.progressSection card = Some v /\
           (Job.progress_percent job = None ->
            Render.percent v = 0 /\ Render.barWidth v = Num.zero) /\
           (Progress.total p = None -> Render.totalUrls v = Num.zero) /\
           (Progress.success p = None -> Progress.failed p = None ->
            Render.processed v = Num.zero /\ Render.quickStats v = None) /\
           (Progress.stage p = None ->
            Render.stageName v = "In Corso" /\ Render.stageDesc v = EmptyString) /\
           (Progress.urls p = None -> Render.urlSection v = None)) /\
      (forall res, Job.result job = Some res ->
         exists v,
           Render.resultSection card = Some v /\
           (Result.indexed res = None ->
            Render.savedRecipes v = Num.zero /\ Render.searchable v = false) /\
           (Result.total_urls res = None -> Render.processedUrls v = Num.zero) /\
           (Result.success res = None -> Render.successes v = Num.zero) /\
           (Result.failed res = None -> Render.failures v = None))).
Proof.
  intros Hid Hothers. split.
  - intros Hunknown.
    destruct (unknown_status _ Hunknown) as (Hr & Hq & Hc & Hf).
    assert (Horder : Render.statusOrder (Job.status job) = None).
    { unfold Job.status_is in *. unfold Render.statusOrder.
      destruct (Job.status job) as [s|]; [|reflexivity]. now rewrite Hr, Hq, Hc, Hf. }
    repeat split.
    + unfold has_id in Hid. unfold Render.renderJob.
      destruct (Job.job_id job) as [id|]; [|discriminate].
      eexists. split; [reflexivity|]. cbn [Render.jobBadge Render.badge].
      unfold Job.status_is in *. unfold Render.badge.
      destruct (Job.status job) as [s|]; [|reflexivity]. now rewrite Hr, Hq, Hc, Hf.
    + unfold Render.compareJobs. now rewrite Horder.
    + unfold Render.compareJobs. rewrite Horder.
      now destruct (Render.statusOrder (Job.status j)).
    + destruct (renderJobs_cards job others) as (cards & Hrender & Hcards).
      { cbn [forallb]. now rewrite Hid, Hothers. }
      exists (Render.sort (job :: others)), cards.
      split; [exact Hrender|]. split; [apply sort_perm | exact Hcards].
    + unfold jobStats, count_status. cbn [filter]. now rewrite Hc, Hr, Hq.
    + unfold Job.is_active. now rewrite Hr, Hq.
  - unfold has_id in Hid. unfold Render.renderJob.
    destruct (Job.job_id job) as [id|]; [|discriminate].
    eexists. split; [reflexivity|].
    cbn [Render.progressSection Render.resultSection Render.errorDetail].
    split; [|split; [|split; [|split]]].
    + now intros ->.
    + now intros ->.
    + now intros ->.
    + intros p ->. eexists. split; [reflexivity|].
      unfold Render.renderProgress.
      destruct (match Render.lookup _ _ with Some nd => nd | None => _ end)
        as [name desc] eqn:Einfo.
      cbn [Render.percent Render.barWidth Render.totalUrls Render.processed
           Render.quickStats Render.stageName Render.stageDesc Render.urlSection].
      split; [|split; [|split; [|split]]].
      * intros ->. split; reflexivity.
      * intros ->. reflexivity.
      * intros -> ->. split; reflexivity.
      * intros Hs. rewrite Hs in Einfo. cbn in Einfo. injection Einfo as <- <-.
        split; reflexivity.
      * intros ->. cbn. now rewrite andb_false_r.
    + intros res ->. eexists. split; [reflexivity|].
      unfold Render.renderResult.
      cbn [Render.savedRecipes Render.searchable Render.processedUrls
           Render.successes Render.failures].
      split; [|split; [|split]].
      * intros ->. split; reflexivity.
      * intros ->. reflexivity.
      * intros ->. reflexivity.
      * intros ->. reflexivity.
Qed.

Lemma defensive_payload_witness :
  exists card,
    Render.renderJob (Job.mk (Some "A") (Some "paused") None None None None) =
      Normal card /\
    Render.statusText (Render.jobBadge card) = "Sconosciuto".
Proof.
  destruct (defensive_payload
              (Job.mk (Some "A") (Some "paused") None None None None) [queuedA]
              eq_refl eq_refl) as [Hunknown _].
  destruct (Hunknown eq_refl) as (Hcard & _). exact Hcard.
Defined.

(** ** The import form *)

(** The [forEach] loop with [push] is a double filter. *)
Lemma validateUrls_loop (urls valid invalid : list string) :
  fold_left
    (fun '(valid, invalid) url =>
       if ImportForm.isValid url then (valid ++ [url], invalid)%list
       else (valid, invalid ++ [url])%list)
    urls (valid, invalid) =
  ((valid ++ filter ImportForm.isValid urls)%list,
   (invalid ++ filter (fun url => negb (ImportForm.isValid url)) urls)%list).
Proof.
  revert valid invalid. induction urls as [|url urls IH]; intros valid invalid.
  - cbn. now rewrite !app_nil_r.
  - cbn [fold_left filter]. destruct (ImportForm.isValid url); cbn [negb]; rewrite IH.
    + now rewrite <- app_assoc.
    + now rewrite <- app_assoc.
Qed.

Lemma validateUrls_filter (urls : list string) :
  ImportForm.validateUrls urls =
    (filter ImportForm.isValid urls,
     filter (fun url => negb (ImportForm.isValid url)) urls).
Proof. unfold ImportForm.validateUrls. now rewrite validateUrls_loop. Qed.

Lemma filter_interleave {A} (p : A -> bool) (l : list A) :
  ImportForm.Interleave (filter p l) (filter (fun x => negb (p x)) l) l.
Proof.
  induction l as [|x l IH]; [constructor|].
  cbn [filter]. destruct (p x); cbn [negb]; now constructor.
Qed.

Lemma isValid_domain (url : string) :
  ImportForm.isValid url = true <->
  exists domain, In domain ImportForm.supportedDomains /\
                 JsString.includes (JsString.toLowerCase url) domain = true.
Proof. unfold ImportForm.isValid. apply existsb_exists. Qed.

(** What [handleSubmit] posts, if it posts. *)
Lemma handleSubmit_posts (matchUrls : string -> list string)
      (urlInput : option string) (body : list string) :
  In (ImportForm.PostIngest body) (ImportForm.handleSubmit matchUrls urlInput) ->
  exists value,
    urlInput = Some value /\
    body = fst (ImportForm.validateUrls
                  (ImportForm.parseUrls matchUrls (JsString.trim value))) /\
    body <> [].
Proof.
  unfold ImportForm.handleSubmit. destruct urlInput as [value|].
  - intros H. exists value. split; [reflexivity|].
    destruct (JsString.is_empty (JsString.trim value)).
    { destruct H as [H|[]]; discriminate. }
    destruct (ImportForm.parseUrls matchUrls (JsString.trim value)) as [|u urls].
    { destruct H as [H|[]]; discriminate. }
    destruct (ImportForm.validateUrls (u :: urls)) as [valid invalid].
    cbn [fst]. destruct valid as [|v valid].
    + apply in_app_or in H as [H|H].
      * destruct invalid; [destruct H | destruct H as [H|[]]; discriminate].
      * destruct H as [H|[]]; discriminate.
    + apply in_app_or in H as [H|H].
      * destruct invalid; [destruct H | destruct H as [H|[]]; discriminate].
      * destruct H as [H|[H|[]]]; [discriminate|]. injection H as <-.
        split; [reflexivity | discriminate].
  - intros [H|[]]; discriminate.
Qed.

(** C10 — URL validation partition.  [validateUrls] splits its input into
    the URLs whose lower-cased text contains one of the six supported
    domains ([valid]) and the others ([invalid]): the input is the two
    lists spliced together, each in its input order, so every URL of the
    input lands in exactly one of them; and [handleSubmit] posts to the
    ingest endpoint nothing but the non-empty [valid] list of the URLs
    parsed from the input field. *)
Theorem validateUrls_partition (urls : list string) :
  let valid := fst (ImportForm.validateUrls urls) in
  let invalid := snd (ImportForm.validateUrls urls) in
  ImportForm.Interleave valid invalid urls /\
  valid = filter ImportForm.isValid urls /\
  invalid = filter (fun url => negb (ImportForm.isValid url)) urls /\
  (forall url,
      In url valid <->
      In url urls /\
      exists domain, In domain ImportForm.supportedDomains /\
                     JsString.includes (JsString.toLowerCase url) domain = true) /\
  (forall url,
      In url urls ->
      (In url valid /\ ~ In url invalid) \/ (In url invalid /\ ~ In url valid)) /\
  (forall matchUrls urlInput body,
      In (ImportForm.PostIngest body) (ImportForm.handleSubmit matchUrls urlInput) ->
      exists value,
        urlInput = Some value /\
        body = fst (ImportForm.validateUrls
                      (ImportForm.parseUrls matchUrls (JsString.trim value))) /\
        body <> []).
Proof.
  rewrite validateUrls_filter. cbn [fst snd].
  split; [apply filter_interleave|]. split; [reflexivity|]. split; [reflexivity|].
  split; [|split].
  - intros url. rewrite filter_In, isValid_domain. reflexivity.
  - intros url Hin. rewrite !filter_In.
    destruct (ImportForm.isValid url) eqn:Hv; cbn [negb].
    + left. split; [auto|]. intros [_ H]. discriminate.
    + right. split; [auto|]. intros [_ H]. discriminate.
  - apply handleSubmit_posts.
Qed.

Lemma validateUrls_partition_witness :
  ImportForm.validateUrls
    ["https://YouTube.com/a"; "http://example.org/b"; "https://fb.watch/c"] =
    (["https://YouTube.com/a"; "https://fb.watch/c"], ["http://example.org/b"]) /\
  exists value,
    Some " https://YouTube.com/a, http://example.org/b " = Some value /\
    ["https://YouTube.com/a"] =
      fst (ImportForm.validateUrls
             (ImportForm.parseUrls
                (fun _ => ["https://YouTube.com/a"; "http://example.org/b"])
                (JsString.trim value))).
Proof.
  destruct (validateUrls_partition
              ["https://YouTube.com/a"; "http://example.org/b"; "https://fb.watch/c"])
    as (_ & Hvalid & Hinvalid & _ & _ & Hpost).
  split.
  - rewrite (surjective_pairing (ImportForm.validateUrls _)), Hvalid, Hinvalid.
    reflexivity.
  - destruct (Hpost (fun _ => ["https://YouTube.com/a"; "http://example.org/b"])
                    (Some " https://YouTube.com/a, http://example.org/b ")
                    ["https://YouTube.com/a"])
      as (value & Hvalue & Hbody & _).
    + vm_compute. right. right. left. reflexivity.
    + exists value. split; [exact Hvalue | exact Hbody].
Defined.

(** * Further properties of the code *)

(** ** The order of the job cards *)

Lemma known_statusOrder (j : Job.t) :
  Job.known_status j = true -> Render.statusOrder (Job.status j) = Some (rank j).
Proof.
  unfold Job.known_status, Job.status_is, rank, Render.statusOrder.
  destruct (Job.status j) as [s|]; [|discriminate].
  destruct (s =? "running")%string; [reflexivity|].
  destruct (s =? "queued")%string; [reflexivity|].
  destruct (s =? "completed")%string; [reflexivity|].
  destruct (s =? "failed")%string; [reflexivity|discriminate].
Qed.

Lemma comes_after_rank (a b : Job.t) :
  Job.known_status a = true -> Job.known_status b = true ->
  Render.comes_after a b = (rank b <? rank a).
Proof.
  intros Ha Hb. unfold Render.comes_after, Render.compareJobs.
  rewrite (known_statusOrder _ Ha), (known_statusOrder _ Hb).
  destruct (Z.ltb_spec 0 (rank a - rank b)), (Z.ltb_spec (rank b) (rank a));
    try reflexivity; lia.
Qed.

(** A job is only ever moved past a job of another status. *)
Lemma comes_after_status (s : string) (a b : Job.t) :
  Render.comes_after a b = true ->
  Job.status_is s a = true -> Job.status_is s b = false.
Proof.
  unfold Render.comes_after, Render.compareJobs, Job.status_is.
  destruct (Job.status a) as [sa|]; [|discriminate].
  destruct (Job.status b) as [sb|]; [|reflexivity].
  intros H Hs. apply String.eqb_eq in Hs. subst sa.
  destruct (sb =? s)%string eqn:E; [|reflexivity].
  apply String.eqb_eq in E. subst sb.
  destruct (Render.statusOrder (Some s)); [|discriminate].
  rewrite Z.sub_diag in H. discriminate.
Qed.

Lemma insert_filter (s : string) (x : Job.t) (l : list Job.t) :
  filter (Job.status_is s) (Render.insert x l) = filter (Job.status_is s) (x :: l).
Proof.
  induction l as [|y l IH]; [reflexivity|].
  cbn [Render.insert]. destruct (Render.comes_after x y) eqn:Hc; [|reflexivity].
  cbn [filter] in *. rewrite IH.
  destruct (Job.status_is s x) eqn:Hx; [|reflexivity].
  now rewrite (comes_after_status s x y Hc Hx).
Qed.

Lemma insert_sorted (x : Job.t) (l : list Job.t) :
  Job.known_status x = true -> forallb Job.known_status l = true ->
  StronglySorted (fun a b => rank a <= rank b) l ->
  StronglySorted (fun a b => rank a <= rank b) (Render.insert x l).
Proof.
  intros Hx Hl Hs. induction Hs as [|y l Hs IH Hy]; cbn [Render.insert].
  - repeat constructor.
  - cbn [forallb] in Hl. apply andb_true_iff in Hl as [Hky Hkl].
    rewrite (comes_after_rank _ _ Hx Hky).
    destruct (Z.ltb_spec (rank y) (rank x)).
    + constructor; [now apply IH|].
      apply (Permutation_Forall (insert_perm x l)). constructor; [lia | exact Hy].
    + constructor; [now constructor|]. constructor; [exact H|].
      eapply Forall_impl; [|exact Hy]. cbn. intros; lia.
Qed.

(** X1 — The order of the cards.  When every job has one of the four known
    statuses, the list that [renderJobs] renders is the input rearranged
    (nothing lost, nothing doubled), with the running jobs first, then the
    queued, the completed and the failed ones, and the jobs of one status in
    the order the server sent them. *)
Theorem sort_by_status (jobs : list Job.t) :
  forallb Job.known_status jobs = true ->
  Permutation jobs (Render.sort jobs) /\
  StronglySorted (fun a b => rank a <= rank b) (Render.sort jobs) /\
  (forall s, filter (Job.status_is s) (Render.sort jobs) = filter (Job.status_is s) jobs).
Proof.
  intros Hk. split; [apply sort_perm|]. split.
  - induction jobs as [|j jobs IH]; [constructor|].
    cbn [forallb] in Hk. apply andb_true_iff in Hk as [Hj Hjobs].
    cbn [Render.sort fold_right]. apply insert_sorted; auto.
    now rewrite <- (forallb_perm _ _ _ (sort_perm jobs)).
  - intros s. clear Hk. induction jobs as [|j jobs IH]; [reflexivity|].
    cbn [Render.sort fold_right]. fold (Render.sort jobs).
    rewrite insert_filter. cbn [filter]. now rewrite IH.
Qed.

Lemma sort_by_status_witness :
  Render.sort [completedA; queuedA; runningA; sampleJob "B" "queued" (Num.of_Z 5)] =
    [runningA; queuedA; sampleJob "B" "queued" (Num.of_Z 5); completedA] /\
  StronglySorted (fun a b => rank a <= rank b)
    (Render.sort [completedA; queuedA; runningA; sampleJob "B" "queued" (Num.of_Z 5)]).
Proof.
  split; [reflexivity|].
  apply (sort_by_status
           [completedA; queuedA; runningA; sampleJob "B" "queued" (Num.of_Z 5)]).
  reflexivity.
Defined.

(** ** Timers *)

Lemma balanced_ret {A} (a : A) : timer_balanced (ret a).
Proof. intros st c st' e H. now injection H as _ <- <-. Qed.

Lemma balanced_throw {A} (name : string) : timer_balanced (@throw A name).
Proof. intros st c st' e H. now injection H as _ <- <-. Qed.

Lemma balanced_get : timer_balanced get.
Proof. intros st c st' e H. now injection H as _ <- <-. Qed.

Lemma balanced_emit (x : Effect) :
  is_arming x = false -> is_clearing x = false -> timer_balanced (emit x).
Proof.
  intros Ha Hc st c st' e H. injection H as _ <- <-.
  unfold count. cbn [filter]. now rewrite Ha, Hc.
Qed.

Lemma balanced_modify (f : State -> State) :
  (forall st, refreshInterval (f st) = refreshInterval st) ->
  timer_balanced (modify f).
Proof.
  intros Hf st c st' e H. injection H as _ <- <-. unfold live. now rewrite Hf.
Qed.

Lemma balanced_bind {A B} (m : M A) (f : A -> M B) :
  timer_balanced m -> (forall a, timer_balanced (f a)) -> timer_balanced (bind m f).
Proof.
  intros Hm Hf st c st' e H. unfold bind in H.
  destruct (m st) as [[[a|name] st1] e1] eqn:Em.
  - destruct (f a st1) as [[r st2] e2] eqn:Ef. injection H as _ <- <-.
    rewrite !count_app. pose proof (Hm _ _ _ _ Em). pose proof (Hf _ _ _ _ _ Ef). lia.
  - injection H as _ <- <-. eapply Hm; eauto.
Qed.

Lemma balanced_try_catch {A} (m : M A) (h : string -> M A) :
  timer_balanced m -> (forall name, timer_balanced (h name)) ->
  timer_balanced (try_catch m h).
Proof.
  intros Hm Hh st c st' e H. unfold try_catch in H.
  destruct (m st) as [[[a|name] st1] e1] eqn:Em.
  - injection H as _ <- <-. eapply Hm; eauto.
  - destruct (h name st1) as [[r st2] e2] eqn:Eh. injection H as _ <- <-.
    rewrite !count_app. pose proof (Hm _ _ _ _ Em). pose proof (Hh _ _ _ _ _ Eh). lia.
Qed.

Lemma balanced_finally {A} (m : M A) (final : M unit) :
  timer_balanced m -> timer_balanced final -> timer_balanced (finally m final).
Proof.
  intros Hm Hf st c st' e H. unfold finally in H.
  destruct (m st) as [[r st1] e1] eqn:Em.
  destruct (final st1) as [[[u|name] st2] e2] eqn:Ef; injection H as _ <- <-;
    rewrite !count_app; pose proof (Hm _ _ _ _ Em); pose proof (Hf _ _ _ _ Ef); lia.
Qed.

Lemma balanced_when (b : bool) (m : M unit) :
  timer_balanced m -> timer_balanced (when b m).
Proof. destruct b; [auto | intros _; apply balanced_ret]. Qed.

Lemma balanced_stopPeriodicRefresh : timer_balanced stopPeriodicRefresh.
Proof.
  intros st c st' e H. unfold stopPeriodicRefresh, bind, get, emit, modify, ret in H.
  destruct st as [[ms|] h a r ab cs n]; injection H as _ <- <-; reflexivity.
Qed.

Lemma balanced_optimizeRefreshInterval : timer_balanced optimizeRefreshInterval.
Proof.
  intros st c st' e H.
  unfold optimizeRefreshInterval, stopPeriodicRefresh, bind, get, emit, modify, ret in H.
  destruct st as [[ms|] h [|] r ab cs n]; injection H as _ <- <-; reflexivity.
Qed.

Ltac balanced := repeat (intros; first
  [ apply balanced_optimizeRefreshInterval | apply balanced_stopPeriodicRefresh
  | apply balanced_bind | apply balanced_when | apply balanced_ret
  | apply balanced_throw | apply balanced_get | apply balanced_try_catch
  | apply balanced_finally
  | apply balanced_emit; reflexivity
  | apply balanced_modify; intros []; reflexivity
  | match goal with
    | |- timer_balanced (if ?b then _ else _) => destruct b
    | |- timer_balanced (match ?x with _ => _ end) => destruct x
    end ]).

Lemma balanced_loadJobs_resume (r : Settled) : timer_balanced (loadJobs_resume r).
Proof.
  unfold loadJobs_resume, loadJobs_try, loadJobs_catch, loadJobs_finally,
    updateJobStats, updateStats, showNotification, renderJobs, renderEmptyState.
  balanced.
Qed.

Lemma balanced_loadJobs : timer_balanced loadJobs.
Proof.
  unfold loadJobs, loadJobs_enter. pose proof balanced_loadJobs_resume. balanced; auto.
Qed.

Lemma balanced_reject_pending (n : nat) : timer_balanced (reject_pending n).
Proof.
  induction n as [|n IH]; cbn [reject_pending]; [apply balanced_ret|].
  apply balanced_bind; [apply balanced_loadJobs_resume | intros; exact IH].
Qed.

Lemma balanced_cleanup : timer_balanced cleanup.
Proof. unfold cleanup. balanced. Qed.

Lemma balanced_exec {A} (m : M A) (st st' : State) (e : list Effect) :
  timer_balanced m -> exec m st = (st', e) ->
  (count is_arming e + live st = count is_clearing e + live st')%nat.
Proof.
  intros Hm H. unfold exec in H. destruct (m st) as [[c st1] e1] eqn:Em.
  injection H as <- <-. eapply Hm; eauto.
Qed.

Lemma balanced_step (e : Event) (st st' : State) (effects : list Effect) :
  step e st = Some (st', effects) ->
  (count is_arming effects + live st = count is_clearing effects + live st')%nat.
Proof.
  destruct e as [| | r |]; cbn [step]; intros H.
  - destruct (refreshInterval st); [|discriminate]. injection H as H.
    exact (balanced_exec _ _ _ _ balanced_loadJobs H).
  - injection H as H. exact (balanced_exec _ _ _ _ balanced_loadJobs H).
  - destruct (inflight st) as [|n]; [discriminate|]. injection H as H.
    apply (balanced_exec _ _ _ _ (balanced_loadJobs_resume _)) in H.
    exact H.
  - injection H as H. refine (balanced_exec _ _ _ _ _ H).
    pose proof balanced_cleanup. pose proof balanced_reject_pending. balanced; auto.
Qed.

(** X2 — No timer is leaked.  Over any run of events, from any state and
    whatever the responses, the timers started less the timers stopped make
    up the difference in [refreshInterval]: a [setInterval] on a manager
    that holds a handle is always preceded by the [clearInterval] of that
    handle, so never more than one refresh timer runs. *)
Theorem timer_discipline (events : list Event) (st st' : State) (effects : list Effect) :
  run events st = Some (st', effects) ->
  (count is_arming effects + live st = count is_clearing effects + live st')%nat /\
  (live st' <= 1)%nat.
Proof.
  intros Hrun. split; [|unfold live; destruct (refreshInterval st'); lia].
  revert st effects Hrun. induction events as [|e events IH]; intros st effects Hrun.
  - injection Hrun as <- <-. reflexivity.
  - cbn [run] in Hrun. destruct (step e st) as [[st1 e1]|] eqn:Hs; [|discriminate].
    destruct (run events st1) as [[st2 e2]|] eqn:Hr; [|discriminate].
    injection Hrun as <- <-. rewrite !count_app.
    pose proof (balanced_step _ _ _ _ Hs). pose proof (IH _ _ Hr). lia.
Qed.

Lemma timer_discipline_witness :
  exists st' effects,
    run (polls [found [runningA]; found [completedA]; notFound] ++ [PageCloses])
        constructed = Some (st', effects) /\
    (count is_arming effects + 1 = count is_clearing effects + live st')%nat.
Proof.
  destruct (run (polls [found [runningA]; found [completedA]; notFound] ++ [PageCloses])
                constructed) as [[st' effects]|] eqn:Hrun;
    [|vm_compute in Hrun; discriminate].
  exists st', effects. split; [reflexivity|].
  exact (proj1 (timer_discipline _ _ _ _ Hrun)).
Defined.

(** ** After cleanup *)

Lemma disposed_frozen (st st' : State) (e : Event) (effects : list Effect) :
  disposed st -> lastJobsHash st = None ->
  step e st = Some (st', effects) ->
  st' = st /\ count is_work effects = 0%nat /\ (inflight st' = 0)%nat.
Proof.
  intros (Hab & Hri & Hn & Hr) Hh Hstep. destruct e as [| | r |].
  - cbn [step] in Hstep. rewrite Hri in Hstep. discriminate.
  - cbn [step] in Hstep. rewrite loadJobs_call, Hr, Hab in Hstep.
    injection Hstep as <- <-. destruct st; fields; subst. repeat split.
  - cbn [step] in Hstep. rewrite Hn in Hstep. discriminate.
  - rewrite step_pageCloses in Hstep. injection Hstep as <- <-.
    destruct st; fields; subst. repeat split.
Qed.

(** X3 — [cleanup] is terminal.  From whatever state the page closes, the
    manager is left without timer, aborted, with nothing pending; and from
    then on no event changes its state any more: the timer cannot fire, no
    response is delivered, a further [loadJobs()] or [cleanup()] (the page
    calls it on beforeunload and again on pagehide) renders nothing, shows
    nothing, publishes nothing and arms no timer. *)
Theorem cleanup_is_terminal (st closed st' : State) (e1 effects : list Effect)
        (events : list Event) :
  step PageCloses st = Some (closed, e1) ->
  run events closed = Some (st', effects) ->
  st' = closed /\
  refreshInterval st' = None /\ aborted st' = true /\ inflight st' = 0%nat /\
  count is_work effects = 0%nat /\
  ~ In TimerFires events /\ (forall r, ~ In (FetchSettles r) events).
Proof.
  intros Hclose.
  destruct (pageCloses_disposed _ _ _ Hclose) as (Hd & _).
  assert (Hh : lastJobsHash closed = None).
  { rewrite step_pageCloses in Hclose. now injection Hclose as <- _. }
  clear Hclose. revert effects.
  induction events as [|e events IH]; intros effects Hrun.
  - injection Hrun as <- <-. destruct Hd as (Hab & Hri & Hn & _). repeat split; auto.
  - cbn [run] in Hrun. destruct (step e closed) as [[st2 e2]|] eqn:Hs; [|discriminate].
    destruct (run events st2) as [[st3 e3]|] eqn:Hr; [|discriminate].
    injection Hrun as <- <-.
    destruct (disposed_frozen _ _ _ _ Hd Hh Hs) as (-> & Hw2 & _).
    destruct (disposed_step _ _ _ _ Hd Hs) as (_ & _ & Ht & Hf).
    destruct (IH _ Hr) as (-> & Hri & Hab & Hn & Hw3 & Ht3 & Hf3).
    rewrite count_app, Hw2, Hw3. repeat split; auto.
    + intros [H|H]; [now apply Ht | now apply Ht3].
    + intros r [H|H]; [now apply (Hf r) | now apply (Hf3 r)].
Qed.

Lemma cleanup_is_terminal_witness :
  exists closed e1 st' effects,
    step PageCloses constructed = Some (closed, e1) /\
    run [LoadJobsCalled; PageCloses; LoadJobsCalled] closed = Some (st', effects) /\
    st' = closed /\ count is_work effects = 0%nat.
Proof.
  destruct (step PageCloses constructed) as [[closed e1]|] eqn:Hclose;
    [|vm_compute in Hclose; discriminate].
  destruct (run [LoadJobsCalled; PageCloses; LoadJobsCalled] closed)
    as [[st' effects]|] eqn:Hrun.
  - exists closed, e1, st', effects.
    destruct (cleanup_is_terminal _ _ _ _ _ _ Hclose Hrun) as (Hst & _ & _ & _ & Hw & _).
    repeat split; auto.
  - exfalso. injection Hclose as <- _. vm_compute in Hrun. discriminate.
Defined.

(** ** A payload that makes rendering throw *)

(** X4 — A job without [job_id].  When a 2xx response lists a job whose
    [job_id] is absent and its fingerprint is not the stored one,
    [renderJobs] throws: [loadJobs] has by then overwritten the active flag,
    and it then logs the error, shows the destructive notification and
    clears the guard.  It neither stores the fingerprint nor publishes the
    counters nor re-arms the timer nor asks for the database statistics;
    the same payload fails in the same way on the next poll. *)
Theorem malformed_payload (st : State) (status : Z) (jobs : list Job.t) :
  ok status = true ->
  forallb has_id jobs = false ->
  differs (lastJobsHash st) (jobsHash jobs) = true ->
  exec (loadJobs_resume (Responded status (JobArray jobs))) st =
    (set_isRefreshing false (set_hasActiveJobs (anyActive jobs) st),
     [RenderJobs jobs; ConsoleError; errorNotification; SetRefreshLoading false]) /\
  differs (lastJobsHash (fst (exec (loadJobs_resume (Responded status (JobArray jobs))) st)))
          (jobsHash jobs) = true.
Proof.
  intros Hok Hid Hd.
  assert (He : exec (loadJobs_resume (Responded status (JobArray jobs))) st =
               (set_isRefreshing false (set_hasActiveJobs (anyActive jobs) st),
                [RenderJobs jobs; ConsoleError; errorNotification;
                 SetRefreshLoading false])).
  { methods. rewrite Hok, (renderJobs_throws _ Hid). cbn [negb].
    fold (anyActive jobs).
    destruct st as [ri h a r ab c n]; cbn [lastJobsHash] in *. rewrite Hd.
    destruct jobs as [|j jobs]; [discriminate|]. reflexivity. }
  split; [exact He|]. rewrite He. destruct st; exact Hd.
Qed.

Lemma malformed_payload_witness :
  exec (loadJobs_resume
          (Responded 200 (JobArray [Job.mk None (Some "running") None None None None])))
       constructed =
    (set_isRefreshing false (set_hasActiveJobs true constructed),
     [RenderJobs [Job.mk None (Some "running") None None None None];
      ConsoleError; errorNotification; SetRefreshLoading false]).
Proof.
  exact (proj1 (malformed_payload constructed 200
                  [Job.mk None (Some "running") None None None None]
                  eq_refl eq_refl eq_refl)).
Defined.

(** ** The database statistics *)

(** X5 — When the database statistics are refreshed.  A refresh whose
    payload conforms to the data model calls [loadDatabaseStats] once if the
    response is a 2xx job array that lists a completed job, and not at all
    otherwise (no completed job, a 404, a failure).  The fingerprint plays no
    part: while a completed job is listed, every poll asks for the
    statistics, also the polls that render nothing. *)
Theorem database_stats_trigger (st st' : State) (r : Settled) (effects : list Effect) :
  conforming (FetchSettles r) = true ->
  exec (loadJobs_resume r) st = (st', effects) ->
  count is_db effects = (if brings_completed r then 1 else 0)%nat.
Proof.
  intros Hc He.
  destruct (settled_cases r) as [[err Hf] | [[body ->] | (status & jobs & -> & Hok)]].
  - rewrite (resume_failure _ _ _ Hf) in He. injection He as _ <-.
    assert (Hb : brings_completed r = false).
    { unfold failure in Hf. unfold brings_completed.
      destruct r as [status [jobs|e] | e]; try reflexivity.
      destruct (ok status); [discriminate | reflexivity]. }
    rewrite Hb. destruct (negb _); reflexivity.
  - rewrite resume_notFound in He.
    assert (Hb : brings_completed (Responded 404 body) = false)
      by (destruct body; reflexivity).
    rewrite Hb. destruct (differs _ _); injection He as _ <-;
      [destruct (refreshInterval st)|]; reflexivity.
  - cbn [conforming] in Hc. rewrite (resume_found _ _ _ Hok Hc) in He.
    injection He as _ <-. cbn [brings_completed]. rewrite Hok. cbn [andb].
    count_effects.
Qed.

Lemma database_stats_trigger_witness :
  count is_db (snd (exec (loadJobs_resume (found [completedA]))
                         (fst (exec (loadJobs_resume (found [completedA])) constructed)))) =
    1%nat.
Proof.
  exact (database_stats_trigger _ _ (found [completedA]) _ eq_refl
           (surjective_pairing _)).
Defined.

(** ** What a card can show *)

Lemma pow10_pos (k : nat) : 0 < Num.pow10 k.
Proof. unfold Num.pow10. apply Z.pow_pos_nonneg; lia. Qed.

(** [Math.max(0, Math.min(100, x))] lies between 0 and 100 and is [x] when
    [x] does. *)
Lemma clamp_bounds (x : Num.number) :
  num_le Num.zero (Render.clamp x) /\ num_le (Render.clamp x) (Num.of_Z 100) /\
  (num_le Num.zero x -> num_le x (Num.of_Z 100) -> num_eq (Render.clamp x) x).
Proof.
  unfold num_le, num_eq, Render.clamp, Num.max, Num.min.
  destruct x as [m k]. pose proof (pow10_pos k) as Hk.
  assert (H1 : Num.pow10 0 = 1) by reflexivity.
  destruct (Num.ltb (Num.mkNum m k) (Num.of_Z 100)) eqn:E1;
    [destruct (Num.ltb Num.zero (Num.mkNum m k)) eqn:E2
    |change (Num.ltb Num.zero (Num.of_Z 100)) with true; cbv iota];
    unfold Num.ltb in *; cbn [Num.mantissa Num.decimals Num.of_Z Num.zero] in *;
    rewrite ?H1 in *; rewrite ?Z.ltb_lt, ?Z.ltb_ge in *;
    repeat split; intros; rewrite ?Z.ltb_ge in *; try reflexivity; try lia.
Qed.

(** X6 — The progress bar stays on the card.  On every card that has a
    progress section the width of the bar lies between 0 and 100, and it is
    the progress percentage itself whenever that lies between 0 and 100; the
    bar of every URL row lies between 0 and 100 too.  The percentage printed
    beside the bar is [Math.round(progress_percent)], which is not clamped:
    a payload with 140 shows "140%" beside a full bar. *)
Theorem progress_bar_bounds (job : Job.t) (card : Render.JobView) (v : Render.ProgressView) :
  Render.renderJob job = Normal card ->
  Render.progressSection card = Some v ->
  num_le Num.zero (Render.barWidth v) /\
  num_le (Render.barWidth v) (Num.of_Z 100) /\
  (forall x, Job.progress_percent job = Some x ->
             (num_le Num.zero x -> num_le x (Num.of_Z 100) ->
              num_eq (Render.barWidth v) x) /\
             Render.percent v = Num.round x) /\
  (forall sec row w,
      Render.urlSection v = Some sec -> In row (Render.urlRows sec) ->
      Render.urlBar row = Some w ->
      num_le Num.zero w /\ num_le w (Num.of_Z 100)).
Proof.
  unfold Render.renderJob. destruct (Job.job_id job) as [id|]; [|discriminate].
  intros Hcard Hv. injection Hcard as <-. cbn [Render.progressSection] in Hv.
  destruct (Job.progress job) as [p|]; [|discriminate]. injection Hv as <-.
  unfold Render.renderProgress.
  destruct (match Render.lookup _ _ with Some nd => nd | None => _ end) as [name desc].
  cbn [Render.barWidth Render.percent Render.urlSection].
  split; [apply clamp_bounds|]. split; [apply clamp_bounds|]. split.
  - intros x ->. cbn [Render.default]. split; [apply clamp_bounds | reflexivity].
  - intros sec row w Hsec Hrow Hbar.
    repeat match type of Hsec with
           | (if ?b then _ else _) = _ => destruct b; [|discriminate]
           end.
    injection Hsec as <-. cbn [Render.urlRows] in Hrow.
    apply in_map_iff in Hrow as [u [<- _]].
    unfold Render.renderUrl in Hbar.
    destruct (match Render.lookup _ _ with Some _ => _ | None => _ end) as [n d].
    match type of Hbar with
    | context [let '(_, _) := ?c in _] => destruct c as [cls border]
    end.
    cbn [Render.urlBar] in Hbar.
    match type of Hbar with
    | (if ?b then _ else _) = _ => destruct b; [|discriminate]
    end.
    match type of Hbar with
    | option_map _ ?o = _ => destruct o as [shown|]; [|discriminate]
    end.
    injection Hbar as <-. split; apply clamp_bounds.
Qed.

Lemma progress_bar_bounds_witness :
  exists card v,
    Render.renderJob overshoot = Normal card /\
    Render.progressSection card = Some v /\
    num_le (Render.barWidth v) (Num.of_Z 100) /\ Render.percent v = 140.
Proof.
  destruct (Render.renderJob overshoot) as [card|e] eqn:Hcard;
    [|vm_compute in Hcard; discriminate].
  destruct (Render.progressSection card) as [v|] eqn:Hv;
    [|vm_compute in Hcard; injection Hcard as <-; discriminate].
  exists card, v. split; [reflexivity|]. split; [exact Hv|].
  destruct (progress_bar_bounds overshoot card v Hcard Hv) as (_ & Hle & Hx & _).
  split; [exact Hle|]. exact (proj2 (Hx _ eq_refl)).
Defined.

(** X7 — The URL rows.  A card lists URL rows only for a running job whose
    progress record has URLs.  It then shows the first ten of them in the
    order of the payload, never more than ten, and the rows shown and the
    count announced as still hidden add up to all the URLs. *)
Theorem url_rows (job : Job.t) (card : Render.JobView) (v : Render.ProgressView)
        (p : Progress.t) :
  Render.renderJob job = Normal card ->
  Job.progress job = Some p ->
  Render.progressSection card = Some v ->
  let urls := Render.default [] (Progress.urls p) in
  match Render.urlSection v with
  | Some sec =>
      Job.status_is "running" job = true /\ urls <> [] /\
      Render.urlRows sec = map Render.renderUrl (firstn 10 urls) /\
      Render.shownUrls sec = List.length (Render.urlRows sec) /\
      (Render.shownUrls sec <= 10)%nat /\
      (Render.shownUrls sec +
       match Render.hiddenUrls sec with Some n => n | None => 0 end)%nat =
        List.length urls
  | None => Job.status_is "running" job = false \/ urls = []
  end.
Proof.
  unfold Render.renderJob. destruct (Job.job_id job) as [id|]; [|discriminate].
  intros Hcard Hp Hv. injection Hcard as <-. cbn [Render.progressSection] in Hv.
  rewrite Hp in Hv. injection Hv as <-.
  unfold Render.renderProgress.
  destruct (match Render.lookup _ _ with Some nd => nd | None => _ end) as [name desc].
  cbn [Render.urlSection]. cbv zeta.
  set (urls := Render.default [] (Progress.urls p)).
  change (match Job.status job with Some s => (s =? "running")%string | None => false end)
    with (Job.status_is "running" job).
  destruct (Job.status_is "running" job); cbn [andb]; [|now left].
  destruct (Nat.ltb_spec 0 (List.length urls)) as [Hpos|Hzero];
    [|right; destruct urls; [reflexivity | cbn [List.length] in Hzero; lia]].
  pose proof (length_firstn 10 urls) as Hlen.
  destruct (Nat.ltb_spec 0 (List.length (firstn 10 urls))) as [_|Hz]; [|lia].
  cbn [Render.urlRows Render.shownUrls Render.hiddenUrls]. rewrite length_map.
  split; [reflexivity|]. split; [intros E; rewrite E in Hpos; cbn in Hpos; lia|].
  split; [reflexivity|]. split; [reflexivity|]. split; [lia|].
  destruct (Nat.ltb_spec 10 (List.length urls)); lia.
Qed.

Lemma url_rows_witness :
  exists card v sec,
    Render.renderJob twelveUrls = Normal card /\
    Render.progressSection card = Some v /\
    Render.urlSection v = Some sec /\
    Render.urlRows sec =
      map Render.renderUrl
          (firstn 10 (Render.default [] (Progress.urls
                        (Render.default Progress.empty (Job.progress twelveUrls))))) /\
    Render.shownUrls sec = 10%nat /\
    Render.hiddenUrls sec = Some 2%nat.
Proof.
  destruct (Render.renderJob twelveUrls) as [card|e] eqn:Hcard;
    [|vm_compute in Hcard; discriminate].
  destruct (Render.progressSection card) as [v|] eqn:Hv;
    [|vm_compute in Hcard; injection Hcard as <-; discriminate].
  pose proof (url_rows twelveUrls card v _ Hcard eq_refl Hv) as H. cbv zeta in H.
  destruct (Render.urlSection v) as [sec|] eqn:Hsec;
    [|destruct H as [H|H]; discriminate].
  destruct H as (_ & _ & Hrows & Hshown & _ & Hsum).
  exists card, v, sec. split; [reflexivity|]. split; [exact Hv|]. split; [exact Hsec|].
  split; [exact Hrows|].
  assert (Hten : Render.shownUrls sec = 10%nat) by (rewrite Hshown, Hrows; reflexivity).
  split; [exact Hten|].
  rewrite Hten in Hsum. cbn in Hsum.
  destruct (Render.hiddenUrls sec) as [n|]; [f_equal; lia | lia].
Defined.

(** ** The counters *)

Lemma status_is_exclusive (s t : string) (j : Job.t) :
  s <> t -> Job.status_is s j = true -> Job.status_is t j = false.
Proof.
  unfold Job.status_is. destruct (Job.status j) as [u|]; [|discriminate].
  intros Hst Hs. apply String.eqb_eq in Hs. subst u. now apply String.eqb_neq.
Qed.

(** X8 — No job is counted twice.  The three counters that
    [updateJobStats] publishes count disjoint jobs: together with the jobs
    that are neither completed nor running nor queued (the failed ones and
    those of an unknown or absent status, which no counter shows) they add
    up to the length of the payload. *)
Theorem counters_partition (jobs : list Job.t) :
  (completed (jobStats jobs) + running (jobStats jobs) + queued (jobStats jobs) +
   List.length
     (filter (fun j => negb (Job.status_is "completed" j || Job.status_is "running" j ||
                             Job.status_is "queued" j)) jobs))%nat =
  List.length jobs.
Proof.
  unfold jobStats, count_status. cbn [completed running queued].
  induction jobs as [|j jobs IH]; [reflexivity|]. cbn [filter List.length].
  destruct (Job.status_is "completed" j) eqn:Hc.
  - rewrite (status_is_exclusive "completed" "running" j), (status_is_exclusive "completed" "queued" j)
      by (auto; discriminate).
    cbn [orb negb List.length]. lia.
  - destruct (Job.status_is "running" j) eqn:Hr.
    + rewrite (status_is_exclusive "running" "queued" j) by (auto; discriminate).
      cbn [orb negb List.length]. lia.
    + destruct (Job.status_is "queued" j); cbn [orb negb List.length]; lia.
Qed.

(** ** The shortcode panel *)

Lemma has_In (selected : list string) (code : string) :
  Shortcodes.has selected code = true <-> In code selected.
Proof.
  unfold Shortcodes.has. rewrite existsb_exists. split.
  - intros [x [Hin Hx]]. apply String.eqb_eq in Hx. now subst.
  - intros Hin. exists code. split; [exact Hin | apply String.eqb_refl].
Qed.

Lemma add_NoDup (selected : list string) (code : string) :
  NoDup selected -> NoDup (Shortcodes.add selected code).
Proof.
  intros Hnd. unfold Shortcodes.add. destruct (Shortcodes.has selected code) eqn:Hh; [exact Hnd|].
  apply NoDup_app; [exact Hnd | repeat constructor; intros [] |].
  intros x Hx [<-|[]]. apply has_In in Hx. congruence.
Qed.

Lemma delete_NoDup (selected : list string) (code : string) :
  NoDup selected -> NoDup (Shortcodes.delete selected code).
Proof. apply NoDup_filter. Qed.

Lemma has_add (selected : list string) (code c : string) :
  Shortcodes.has (Shortcodes.add selected code) c =
  Shortcodes.has selected c || (c =? code)%string.
Proof.
  unfold Shortcodes.add. destruct (Shortcodes.has selected code) eqn:Hh.
  - destruct (c =? code)%string eqn:E; [|now rewrite orb_false_r].
    apply String.eqb_eq in E. rewrite orb_true_r, E. exact Hh.
  - unfold Shortcodes.has. rewrite existsb_app. cbn [existsb]. now rewrite orb_false_r.
Qed.

Lemma has_delete (selected : list string) (code c : string) :
  Shortcodes.has (Shortcodes.delete selected code) c =
  Shortcodes.has selected c && negb (c =? code)%string.
Proof.
  unfold Shortcodes.has, Shortcodes.delete.
  induction selected as [|x selected IH]; [reflexivity|]. cbn [filter existsb].
  destruct (x =? code)%string eqn:Hx; cbn [negb existsb]; rewrite IH.
  - apply String.eqb_eq in Hx. subst x.
    destruct (c =? code)%string; cbn [negb orb]; [now rewrite !andb_false_r | reflexivity].
  - destruct (c =? x)%string eqn:Hcx; cbn [orb]; [|reflexivity].
    apply String.eqb_eq in Hcx. subst x. now rewrite Hx.
Qed.

Lemma has_selectAll (codes : list Shortcodes.Shortcode) (selected : list string) (c : string) :
  Shortcodes.has
    (fold_left (fun s sc => Shortcodes.add s (Shortcodes.shortcode sc)) codes selected) c =
  Shortcodes.has selected c ||
  existsb (fun sc => (c =? Shortcodes.shortcode sc)%string) codes.
Proof.
  revert selected. induction codes as [|sc codes IH]; intros selected; cbn [fold_left existsb].
  - now rewrite orb_false_r.
  - rewrite IH, has_add. now rewrite orb_assoc.
Qed.

Lemma selectAll_NoDup (codes : list Shortcodes.Shortcode) (selected : list string) :
  NoDup selected ->
  NoDup (fold_left (fun s sc => Shortcodes.add s (Shortcodes.shortcode sc)) codes selected).
Proof.
  revert selected. induction codes as [|sc codes IH]; intros selected Hnd; cbn [fold_left].
  - exact Hnd.
  - apply IH, add_NoDup, Hnd.
Qed.

Lemma panel_ok_step (e : Shortcodes.Event) (p p' : Shortcodes.Panel)
      (actions : list Shortcodes.Action) :
  panel_ok p -> Shortcodes.step e p = (p', actions) ->
  panel_ok p' /\
  (forall body, In (Shortcodes.PostReimport body) actions ->
                body <> [] /\ NoDup body /\
                e = Shortcodes.ReimportClicked true /\
                body = Shortcodes.selectedShortcodes p).
Proof.
  intros Hok Hstep. pose proof Hok as (Hnd & Hc & Hb).
  destruct e as [code | | | r | confirmed | posted r]; cbn [Shortcodes.step] in Hstep.
  - unfold Shortcodes.toggleShortcodeSelection in Hstep. injection Hstep as <- <-.
    split; [|intros body []]. unfold panel_ok; cbn. split.
    + destruct (Shortcodes.has _ code); [now apply delete_NoDup | now apply add_NoDup].
    + split; [intros n t H; now injection H as <- <- | intros b H; now injection H as <-].
  - unfold Shortcodes.selectAllShortcodes in Hstep. injection Hstep as <- <-.
    split; [|intros body [H|[]]; discriminate]. unfold panel_ok; cbn. split.
    + now apply selectAll_NoDup.
    + split; [intros n t H; now injection H as <- <- | intros b H; now injection H as <-].
  - unfold Shortcodes.deselectAllShortcodes in Hstep. injection Hstep as <- <-.
    split; [|intros body [H|[]]; discriminate]. unfold panel_ok; cbn. split.
    + constructor.
    + split; [intros n t H; now injection H as <- <- | intros b H; now injection H as <-].
  - unfold Shortcodes.loadShortcodes in Hstep.
    destruct r as [data | detail | message]; injection Hstep as <- <-.
    + split; [|intros body [H|[]]; discriminate]. unfold panel_ok; cbn. split; [exact Hnd|].
      split; [intros n t H; now injection H as <- <- | exact Hb].
    + split; [exact Hok|]. intros body [H|[H|[H|[]]]]; discriminate.
    + split; [exact Hok|]. intros body [H|[H|[H|[]]]]; discriminate.
  - injection Hstep as <- <-. split; [exact Hok|].
    unfold Shortcodes.reimport_enter.
    destruct (Shortcodes.selectedShortcodes p) as [|c selected] eqn:Hsel; cbn [snd].
    + intros body [H|[]]; discriminate.
    + destruct confirmed; cbn [snd]; [|intros body []].
      intros body [H|[]]. injection H as <-.
      split; [discriminate|]. split; [exact Hnd|]. split; reflexivity.
  - unfold Shortcodes.reimport_resume in Hstep.
    destruct r as [job_id | detail | message].
    + unfold Shortcodes.deselectAllShortcodes in Hstep. injection Hstep as <- <-.
      split.
      * unfold panel_ok; cbn. split; [constructor|].
        split; [intros n t H; now injection H as <- <- | intros b H; now injection H as <-].
      * intros body [H|[H|[H|[]]]]; discriminate.
    + injection Hstep as <- <-. split; [exact Hok|].
      intros body [H|[H|[]]]; discriminate.
    + injection Hstep as <- <-. split; [exact Hok|].
      intros body [H|[H|[]]]; discriminate.
Qed.

(** X9 — The shortcode panel stays consistent.  After any sequence of
    clicks and responses on a new panel, the selection holds every shortcode
    once; the two counters, once written, show the size of the selection and
    the length of the list; the reimport button, once written, is enabled
    exactly when something is selected; and every array posted to
    [/shortcodes/reimport] is the selection as it stood at a confirmed
    click on the button, which was then not empty and without repeats. *)
Theorem panel_consistent (events : list Shortcodes.Event) (p : Shortcodes.Panel)
        (actions : list Shortcodes.Action) :
  Shortcodes.run events Shortcodes.initial = (p, actions) ->
  panel_ok p /\
  (forall body,
      In (Shortcodes.PostReimport body) actions ->
      body <> [] /\ NoDup body /\
      exists before after,
        events = (before ++ Shortcodes.ReimportClicked true :: after)%list /\
        body = Shortcodes.selectedShortcodes
                 (fst (Shortcodes.run before Shortcodes.initial))).
Proof.
  assert (Hgen : forall events p0 p actions,
             panel_ok p0 -> Shortcodes.run events p0 = (p, actions) ->
             panel_ok p /\
             (forall body,
                 In (Shortcodes.PostReimport body) actions ->
                 body <> [] /\ NoDup body /\
                 exists before after,
                   events = (before ++ Shortcodes.ReimportClicked true :: after)%list /\
                   body = Shortcodes.selectedShortcodes
                            (fst (Shortcodes.run before p0)))).
  { clear. induction events as [|e events' IH]; intros p0 p actions Hok Hrun.
    - injection Hrun as <- <-. split; [exact Hok | intros body []].
    - cbn [Shortcodes.run] in Hrun.
      destruct (Shortcodes.step e p0) as [p1 e1] eqn:Hs.
      destruct (Shortcodes.run events' p1) as [p2 e2] eqn:Hr.
      injection Hrun as <- <-.
      destruct (panel_ok_step _ _ _ _ Hok Hs) as [Hok1 Hpost1].
      destruct (IH _ _ _ Hok1 Hr) as [Hok2 Hpost2].
      split; [exact Hok2|]. intros body Hin.
      apply in_app_or in Hin as [Hin|Hin].
      + destruct (Hpost1 _ Hin) as (Hne & Hnd & -> & ->).
        split; [exact Hne|]. split; [exact Hnd|].
        exists [], events'. split; reflexivity.
      + destruct (Hpost2 _ Hin) as (Hne & Hnd & before & after & -> & ->).
        split; [exact Hne|]. split; [exact Hnd|].
        exists (e :: before), after. split; [reflexivity|].
        cbn [Shortcodes.run]. rewrite Hs.
        destruct (Shortcodes.run before p1) as [p3 e3]. reflexivity. }
  apply Hgen. unfold panel_ok; cbn. repeat split; try constructor; intros; discriminate.
Qed.

Lemma panel_consistent_witness :
  let events :=
    [Shortcodes.Loaded (Shortcodes.Ok (Some sampleCodes)); Shortcodes.Toggle "abc";
     Shortcodes.SelectAll; Shortcodes.Toggle "abc"; Shortcodes.ReimportClicked true] in
  panel_ok (fst (Shortcodes.run events Shortcodes.initial)) /\
  In (Shortcodes.PostReimport ["xyz"]) (snd (Shortcodes.run events Shortcodes.initial)) /\
  exists before after,
    events = (before ++ Shortcodes.ReimportClicked true :: after)%list /\
    ["xyz"] = Shortcodes.selectedShortcodes
                (fst (Shortcodes.run before Shortcodes.initial)).
Proof.
  intros events.
  pose proof (panel_consistent events _ _ (surjective_pairing _)) as [Hok Hpost].
  split; [exact Hok|].
  assert (Hin : In (Shortcodes.PostReimport ["xyz"])
                   (snd (Shortcodes.run events Shortcodes.initial)))
    by (cbn; right; right; now left).
  split; [exact Hin|]. exact (proj2 (proj2 (Hpost _ Hin))).
Defined.

Lemma delete_length (selected : list string) (code : string) :
  NoDup selected -> In code selected ->
  S (List.length (Shortcodes.delete selected code)) = List.length selected.
Proof.
  unfold Shortcodes.delete. induction 1 as [|x l Hx Hnd IH]; intros Hin; [destruct Hin|].
  cbn [filter List.length]. destruct (x =? code)%string eqn:E; cbn [negb List.length].
  - apply String.eqb_eq in E. subst x. f_equal.
    assert (Hf : filter (fun c => negb (c =? code)%string) l = l).
    { apply forallb_filter_id. apply forallb_forall. intros y Hy.
      destruct (y =? code)%string eqn:Ey; [|reflexivity].
      apply String.eqb_eq in Ey. now subst y. }
    now rewrite Hf.
  - f_equal. apply IH. destruct Hin as [->|Hin]; [|exact Hin].
    now rewrite String.eqb_refl in E.
Qed.

(** X10 — Toggling twice.  Ticking and unticking a checkbox (or the other
    way round) leaves the same shortcodes selected and, the selection being
    a set, the same number of them.  The order of the set may change: a
    shortcode that was selected moves to the end, and so does its place in
    the array that a reimport posts. *)
Theorem toggle_twice (p : Shortcodes.Panel) (code : string) :
  let p2 := fst (Shortcodes.toggleShortcodeSelection code
                   (fst (Shortcodes.toggleShortcodeSelection code p))) in
  (forall c, Shortcodes.has (Shortcodes.selectedShortcodes p2) c =
             Shortcodes.has (Shortcodes.selectedShortcodes p) c) /\
  (NoDup (Shortcodes.selectedShortcodes p) ->
   List.length (Shortcodes.selectedShortcodes p2) =
   List.length (Shortcodes.selectedShortcodes p)) /\
  (Shortcodes.has (Shortcodes.selectedShortcodes p) code = true ->
   Shortcodes.selectedShortcodes p2 =
   (Shortcodes.delete (Shortcodes.selectedShortcodes p) code ++ [code])%list).
Proof.
  cbv zeta. unfold Shortcodes.toggleShortcodeSelection.
  cbn [fst Shortcodes.selectedShortcodes Shortcodes.updateReimportButton
       Shortcodes.updateShortcodeCounters Shortcodes.set_selected].
  set (selected := Shortcodes.selectedShortcodes p).
  destruct (Shortcodes.has selected code) eqn:Hh.
  - assert (Hd : Shortcodes.has (Shortcodes.delete selected code) code = false)
      by (rewrite has_delete, String.eqb_refl; apply andb_false_r).
    rewrite Hd. unfold Shortcodes.add at 1 2 3. rewrite Hd.
    split; [|split; [|reflexivity]].
    + intros c. unfold Shortcodes.has at 1. rewrite existsb_app. cbn [existsb].
      fold (Shortcodes.has (Shortcodes.delete selected code) c).
      rewrite has_delete, orb_false_r.
      destruct (c =? code)%string eqn:E; cbn [negb].
      * apply String.eqb_eq in E. subst c. now rewrite Hh, andb_false_r.
      * now rewrite andb_true_r, orb_false_r.
    + intros Hnd. rewrite length_app. cbn [List.length].
      rewrite <- (delete_length selected code Hnd); [lia | now apply has_In].
  - assert (Ha : Shortcodes.has (Shortcodes.add selected code) code = true)
      by (rewrite has_add, String.eqb_refl; apply orb_true_r).
    rewrite Ha. split; [|split; [|discriminate]].
    + intros c. rewrite has_delete, has_add.
      destruct (c =? code)%string eqn:E; cbn [negb].
      * apply String.eqb_eq in E. subst c. now rewrite Hh.
      * now rewrite orb_false_r, andb_true_r.
    + intros _. unfold Shortcodes.add. rewrite Hh. unfold Shortcodes.delete.
      rewrite filter_app. cbn [filter]. rewrite String.eqb_refl. cbn [negb].
      rewrite app_nil_r. f_equal. apply forallb_filter_id, forallb_forall.
      intros y Hy. destruct (y =? code)%string eqn:Ey; [|reflexivity].
      apply String.eqb_eq in Ey. subst y. apply has_In in Hy. congruence.
Qed.

Lemma toggle_twice_witness :
  Shortcodes.selectedShortcodes
    (fst (Shortcodes.toggleShortcodeSelection "a"
            (fst (Shortcodes.toggleShortcodeSelection "a"
                    (Shortcodes.mkPanel [] ["a"; "b"] None None))))) = ["b"; "a"].
Proof.
  exact (proj2 (proj2 (toggle_twice (Shortcodes.mkPanel [] ["a"; "b"] None None) "a"))
               eq_refl).
Defined.

(** X11 — Select all.  After [selectAllShortcodes] a shortcode is selected
    exactly when it was selected before or is in the list: what was selected
    stays selected, also a shortcode that the list no longer has.  Every
    checkbox is drawn ticked. *)
Theorem selectAll_selects (p : Shortcodes.Panel) :
  (forall c,
      Shortcodes.has (Shortcodes.selectedShortcodes (fst (Shortcodes.selectAllShortcodes p))) c =
      Shortcodes.has (Shortcodes.selectedShortcodes p) c ||
      existsb (fun sc => (c =? Shortcodes.shortcode sc)%string) (Shortcodes.shortcodes p)) /\
  snd (Shortcodes.selectAllShortcodes p) =
    [Shortcodes.RenderList
       (map (fun sc => (Shortcodes.shortcode sc, true)) (Shortcodes.shortcodes p))].
Proof.
  unfold Shortcodes.selectAllShortcodes, Shortcodes.renderShortcodesList.
  cbn [fst snd Shortcodes.selectedShortcodes Shortcodes.shortcodes
       Shortcodes.updateReimportButton Shortcodes.updateShortcodeCounters
       Shortcodes.set_selected].
  split; [intros c; apply has_selectAll|].
  f_equal. f_equal. apply map_ext_in. intros sc Hsc. f_equal.
  rewrite has_selectAll. apply orb_true_iff. right.
  apply existsb_exists. exists sc. split; [exact Hsc | apply String.eqb_refl].
Qed.

(** ** The older poller *)

Lemma legacy_run_app (a b : list Event) (st st' : Legacy.State) (effects : list Effect) :
  Legacy.run (a ++ b) st = Some (st', effects) ->
  exists st1 e1 e2,
    Legacy.run a st = Some (st1, e1) /\ Legacy.run b st1 = Some (st', e2) /\
    effects = (e1 ++ e2)%list.
Proof.
  revert st effects. induction a as [|e a IH]; intros st effects H.
  - exists st, [], effects. auto.
  - cbn [app Legacy.run] in *. destruct (Legacy.step e st) as [[st1 e1]|]; [|discriminate].
    destruct (Legacy.run (a ++ b) st1) as [[st2 e2]|] eqn:Hr; [|discriminate].
    injection H as <- <-.
    destruct (IH _ _ Hr) as (st3 & e3 & e4 & Ha & Hb & ->).
    rewrite Ha. exists st3, (e1 ++ e3)%list, e4. now rewrite app_assoc.
Qed.

Lemma legacy_poll (st st' : Legacy.State) (jobs : list Job.t) (effects : list Effect) :
  forallb has_id jobs = true ->
  Legacy.run (poll (found jobs)) st = Some (st', effects) ->
  Legacy.inflight st' = Legacy.inflight st /\
  count Legacy.is_fetch effects = 1%nat /\
  count is_render effects = 1%nat /\
  count is_stats effects = 1%nat.
Proof.
  intros Hc Hrun. unfold poll, found in Hrun.
  cbn [Legacy.run Legacy.step Legacy.loadJobs_enter] in Hrun.
  cbn [Legacy.inflight Legacy.refreshInterval Legacy.counters] in Hrun.
  unfold Legacy.loadJobs_resume in Hrun.
  change (negb (ok 200)) with false in Hrun. cbv iota in Hrun.
  destruct (renderJobs_conforming jobs Hc) as [content Hr]. rewrite Hr in Hrun.
  injection Hrun as <- <-. cbn [Legacy.inflight]. repeat split; count_effects.
Qed.

(** X12 — The older poller neither dedupes nor guards.  In
    src/frontend/import.js every poll that brings a job array calls
    [renderJobs] and [updateStats], so a payload repeated n times is
    rendered n times; and every call of [loadJobs] sends a request, also
    while others are pending: k calls in a row leave k more requests in
    flight. *)
Theorem legacy_renders_every_poll
        (st st' : Legacy.State) (payloads : list (list Job.t)) (effects : list Effect) :
  Forall (fun jobs => forallb has_id jobs = true) payloads ->
  Legacy.run (polls (map found payloads)) st = Some (st', effects) ->
  count is_render effects = List.length payloads /\
  count is_stats effects = List.length payloads /\
  count Legacy.is_fetch effects = List.length payloads /\
  (forall k,
      exists st2 e2,
        Legacy.run (repeat LoadJobsCalled k) st' = Some (st2, e2) /\
        Legacy.inflight st2 = (Legacy.inflight st' + k)%nat /\
        count Legacy.is_fetch e2 = k).
Proof.
  intros Hall. revert st effects.
  assert (Hcalls : forall k s, exists st2 e2,
             Legacy.run (repeat LoadJobsCalled k) s = Some (st2, e2) /\
             Legacy.inflight st2 = (Legacy.inflight s + k)%nat /\
             count Legacy.is_fetch e2 = k).
  { induction k as [|k IH]; intros s.
    - exists s, []. repeat split. cbn. lia.
    - cbn [repeat Legacy.run Legacy.step].
      destruct (IH (fst (Legacy.loadJobs_enter s))) as (st2 & e2 & Hr & Hn & Hf).
      cbn [Legacy.loadJobs_enter fst] in *. rewrite Hr.
      eexists _, _. split; [reflexivity|]. cbn [Legacy.inflight] in Hn.
      split; [lia|]. rewrite count_app, Hf. reflexivity. }
  induction Hall as [|jobs payloads Hid _ IH]; intros st effects Hrun.
  - injection Hrun as <- <-. repeat split. intros k. apply (Hcalls k).
  - cbn [map polls flat_map] in Hrun. fold (polls (map found payloads)) in Hrun.
    destruct (legacy_run_app _ _ _ _ _ Hrun) as (st1 & e1 & e2 & H1 & H2 & ->).
    destruct (legacy_poll _ _ jobs _ Hid H1) as (_ & Hf & Hr & Hs).
    destruct (IH _ _ H2) as (Hr2 & Hs2 & Hf2 & Hk).
    rewrite !count_app, Hf, Hr, Hs, Hr2, Hs2, Hf2. cbn. repeat split. exact Hk.
Qed.

Lemma legacy_renders_every_poll_witness :
  exists st' effects,
    Legacy.run (polls (map found [[queuedA]; [queuedA]; [queuedA]])) Legacy.constructed =
      Some (st', effects) /\
    count is_render effects = 3%nat.
Proof.
  destruct (Legacy.run (polls (map found [[queuedA]; [queuedA]; [queuedA]]))
                       Legacy.constructed) as [[st' effects]|] eqn:Hrun;
    [|vm_compute in Hrun; discriminate].
  exists st', effects. split; [reflexivity|].
  refine (proj1 (legacy_renders_every_poll _ _ [[queuedA]; [queuedA]; [queuedA]] _ _ Hrun)).
  repeat constructor.
Defined.

(** ** What parseUrls lets through *)

Lemma toLowerCase_app (a b : string) :
  JsString.toLowerCase (a ++ b) = (JsString.toLowerCase a ++ JsString.toLowerCase b)%string.
Proof. induction a as [|c a IH]; cbn; [reflexivity | now rewrite IH]. Qed.

Lemma prefix_app (d b : string) : prefix d (d ++ b) = true.
Proof.
  induction d as [|c d IH]; cbn; [now destruct b|].
  destruct (ascii_dec c c); [exact IH | contradiction].
Qed.

Lemma includes_app (a d b : string) : JsString.includes (a ++ d ++ b) d = true.
Proof.
  induction a as [|c a IH].
  - cbn [append]. destruct (d ++ b)%string eqn:E; cbn [JsString.includes];
      rewrite <- E, prefix_app; reflexivity.
  - cbn [append JsString.includes]. rewrite IH. apply orb_true_r.
Qed.

Lemma lit_spec (pattern s m rest : string) :
  UrlPattern.lit pattern s = Some (m, rest) ->
  JsString.toLowerCase m = pattern /\ s = (m ++ rest)%string.
Proof.
  revert s m rest. induction pattern as [|c pattern IH]; intros s m rest H.
  - injection H as <- <-. split; reflexivity.
  - cbn [UrlPattern.lit] in H. destruct s as [|x s]; [discriminate|].
    destruct (Ascii.eqb (JsString.lower_char x) c) eqn:E; [|discriminate].
    destruct (UrlPattern.lit pattern s) as [[m' rest']|] eqn:El; [|discriminate].
    injection H as <- <-. destruct (IH _ _ _ El) as [Hm Hs].
    apply Ascii.eqb_eq in E. cbn. now rewrite Hm, Hs, E.
Qed.

Lemma names_domain_valid (m : string) : names_domain m -> ImportForm.isValid m = true.
Proof.
  intros (a & d & b & -> & Hin). unfold ImportForm.isValid.
  apply existsb_exists. exists (JsString.toLowerCase d). split; [exact Hin|].
  rewrite !toLowerCase_app. apply includes_app.
Qed.

Lemma names_domain_app (a m : string) : names_domain m -> names_domain (a ++ m).
Proof.
  intros (a' & d & b & -> & Hin). exists (a ++ a')%string, d, b.
  split; [|exact Hin]. induction a as [|c a IH]; cbn; [reflexivity | now rewrite IH].
Qed.

Section EngineFacts.
Variable tail : string -> nat.

Lemma domain_names (alternatives : list string) (s m rest : string) :
  incl alternatives ImportForm.supportedDomains ->
  UrlPattern.domain tail alternatives s = Some (m, rest) -> names_domain m.
Proof.
  induction alternatives as [|d others IH]; intros Hincl H; [discriminate|].
  cbn [UrlPattern.domain] in H.
  assert (Hothers : incl others ImportForm.supportedDomains)
    by (intros x Hx; apply Hincl; now right).
  destruct (UrlPattern.lit d s) as [[md s1]|] eqn:El; [|now apply IH].
  destruct (UrlPattern.path tail s1) as [[p rest']|]; [|now apply IH].
  injection H as <- <-. destruct (lit_spec _ _ _ _ El) as [Hd _].
  exists EmptyString, md, p. split; [reflexivity|].
  rewrite Hd. apply Hincl. now left.
Qed.

Lemma optional_names (x : string) (k : string -> option (string * string))
      (s m rest : string) :
  (forall s' m' rest', k s' = Some (m', rest') -> names_domain m') ->
  UrlPattern.optional x k s = Some (m, rest) -> names_domain m.
Proof.
  intros Hk H. unfold UrlPattern.optional in H.
  destruct (UrlPattern.lit x s) as [[mx s1]|]; [|now apply Hk in H].
  destruct (k s1) as [[m' rest']|] eqn:Ek; [|now apply Hk in H].
  injection H as <- <-. apply names_domain_app. now apply Hk in Ek.
Qed.

Lemma match_at_names (s m rest : string) :
  UrlPattern.match_at tail s = Some (m, rest) -> names_domain m.
Proof.
  unfold UrlPattern.match_at. intros H.
  destruct (UrlPattern.lit "http" s) as [[m0 s1]|]; [|discriminate].
  destruct (UrlPattern.optional "s" _ s1) as [[m' rest']|] eqn:Eo; [|discriminate].
  injection H as <- <-. apply names_domain_app.
  apply optional_names in Eo; [exact Eo|].
  intros s' m1 rest1 H1.
  destruct (UrlPattern.lit "://" s') as [[m2 s3]|]; [|discriminate].
  destruct (UrlPattern.optional "www." _ s3) as [[m3 rest3]|] eqn:Ew; [|discriminate].
  injection H1 as <- <-. apply names_domain_app.
  apply optional_names in Ew; [exact Ew|].
  intros s'' m4 rest4 H4. apply domain_names in H4; [exact H4|].
  intros x Hx. exact Hx.
Qed.

Lemma matches_valid (fuel : nat) (s : string) :
  Forall (fun url => ImportForm.isValid url = true) (UrlPattern.matches tail fuel s).
Proof.
  revert s. induction fuel as [|fuel IH]; intros s; cbn [UrlPattern.matches]; [constructor|].
  destruct (UrlPattern.match_at tail s) as [[m rest]|] eqn:Em.
  - constructor; [|apply IH]. apply names_domain_valid. eapply match_at_names; eauto.
  - destruct s; [constructor | apply IH].
Qed.

End EngineFacts.

Lemma filter_all {A} (p : A -> bool) (l : list A) :
  Forall (fun x => p x = true) l ->
  filter p l = l /\ filter (fun x => negb (p x)) l = [].
Proof.
  induction 1 as [|x l Hx _ [IH1 IH2]]; [split; reflexivity|].
  cbn [filter]. rewrite Hx. cbn [negb]. now rewrite IH1, IH2.
Qed.

(** X13 — parseUrls lets only supported URLs through.  Whatever the
    input, every URL that the regular expression of [parseUrls] extracts
    names one of the six supported domains, so [validateUrls] accepts all of
    them and rejects none.  In [handleSubmit] the warning about ignored URLs
    and the notification "Nessun URL supportato trovato" therefore never
    appear: it either shows one of its three other notifications or posts
    every URL it parsed. *)
Theorem parsed_urls_are_supported (tail : string -> nat) (input : string) :
  let urls := ImportForm.parseUrls (UrlPattern.matchUrls tail) input in
  Forall (fun url => ImportForm.isValid url = true) urls /\
  ImportForm.validateUrls urls = (urls, []) /\
  (forall urlInput,
      ImportForm.handleSubmit (UrlPattern.matchUrls tail) urlInput =
        match urlInput with
        | None => [ImportForm.Notify "Elemento input non trovato" "destructive"]
        | Some value =>
            if JsString.is_empty (JsString.trim value)
            then [ImportForm.Notify "Inserisci almeno un URL" "warning"]
            else
              match ImportForm.parseUrls (UrlPattern.matchUrls tail)
                                         (JsString.trim value) with
              | [] => [ImportForm.Notify "Nessun URL valido trovato" "destructive"]
              | u :: others =>
                  [ImportForm.SubmitLoading true; ImportForm.PostIngest (u :: others)]
              end
        end).
Proof.
  assert (Hvalid : forall text,
             Forall (fun url => ImportForm.isValid url = true)
                    (ImportForm.parseUrls (UrlPattern.matchUrls tail) text)).
  { intros text. unfold ImportForm.parseUrls.
    destruct (JsString.is_empty _); [constructor | apply matches_valid]. }
  assert (Hsplit : forall text,
             ImportForm.validateUrls (ImportForm.parseUrls (UrlPattern.matchUrls tail) text) =
             (ImportForm.parseUrls (UrlPattern.matchUrls tail) text, [])).
  { intros text. rewrite validateUrls_filter.
    destruct (filter_all ImportForm.isValid _ (Hvalid text)) as [-> ->]. reflexivity. }
  cbv zeta. split; [apply Hvalid|]. split; [apply Hsplit|].
  intros [value|]; [|reflexivity]. unfold ImportForm.handleSubmit.
  destruct (JsString.is_empty (JsString.trim value)); [reflexivity|].
  rewrite Hsplit.
  destruct (ImportForm.parseUrls (UrlPattern.matchUrls tail) (JsString.trim value));
    reflexivity.
Qed.

(** ** After the import was posted *)

(** X14 — How a submission ends.  Once the POST to the ingest endpoint
    has settled, [handleSubmit] always ends by enabling the submit button
    again, whatever happened.  It empties the input field and refreshes the
    job list exactly when the server answered with a job id; a 2xx answer
    without [job_id] passes in silence: no notification, the input kept.
    Any failure shows exactly one destructive notification and keeps the
    input. *)
Theorem submit_outcome (r : Shortcodes.Settled string) :
  let actions := Submit.handleSubmit_resume r in
  (exists before, actions = (before ++ [Submit.SubmitLoading false])%list /\
                  ~ In (Submit.SubmitLoading false) before /\
                  ~ In (Submit.SubmitLoading true) before) /\
  (In Submit.LoadJobs actions <->
   exists id, r = Shortcodes.Ok (Some id) /\ id <> EmptyString) /\
  (In Submit.ClearInput actions <-> In Submit.LoadJobs actions) /\
  (List.length (filter Submit.is_notify actions) =
   match r with
   | Shortcodes.Ok (Some id) => if JsString.is_empty id then 0 else 1
   | Shortcodes.Ok None => 0
   | _ => 1
   end)%nat.
Proof.
  cbv zeta. unfold Submit.handleSubmit_resume. split.
  { eexists. split; [reflexivity|]. unfold Submit.startImport.
    destruct r as [[[|c id]|] | detail | message]; cbn; intuition discriminate. }
  unfold Submit.startImport.
  destruct r as [[[|c id]|] | detail | message]; cbn.
  - split; [split; [intuition discriminate | intros (id & H & Hne); now injection H as <-]|].
    split; [intuition discriminate | reflexivity].
  - split; [split; [intros _; eexists; split; [reflexivity | discriminate] | auto 10]|].
    split; [split; auto 10 | reflexivity].
  - split; [split; [intuition discriminate | intros (id & H & _); discriminate]|].
    split; [intuition discriminate | reflexivity].
  - split; [split; [intuition discriminate | intros (id & H & _); discriminate]|].
    split; [intuition discriminate | reflexivity].
  - split; [split; [intuition discriminate | intros (id & H & _); discriminate]|].
    split; [intuition discriminate | reflexivity].
Qed.

(** ** The accordion timeout *)

Lemma cancel_debounced (st : Accordion.State) :
  Accordion.debounced st ->
  Accordion.cancel st =
    Accordion.mkState None [] (Accordion.cleanupTasks st) (Accordion.nextHandle st).
Proof.
  unfold Accordion.debounced, Accordion.cancel.
  destruct st as [[h|] l n next]; cbn.
  - intros (_ & s & ->). cbn. now rewrite Nat.eqb_refl.
  - now intros ->.
Qed.

Lemma iter_cancel (n : nat) (tasks next : nat) :
  Nat.iter n Accordion.cancel (Accordion.mkState None [] tasks next) =
  Accordion.mkState None [] tasks next.
Proof. induction n as [|n IH]; [reflexivity|]. now rewrite Nat.iter_succ, IH. Qed.

Lemma debounced_step (e : Accordion.Event) (st st' : Accordion.State)
      (recalculated : list string) :
  Accordion.debounced st ->
  Accordion.step e st = Some (st', recalculated) ->
  Accordion.debounced st' /\
  Accordion.cleanupTasks st' = Accordion.scheduled [e] (Accordion.cleanupTasks st) /\
  (List.length recalculated + List.length (Accordion.timeouts st')
   <= Accordion.calls [e] + List.length (Accordion.timeouts st))%nat.
Proof.
  intros Hd Hstep. destruct e as [sectionId | handle | |]; cbn [Accordion.step] in Hstep.
  - injection Hstep as <- <-. unfold Accordion.scheduleAccordionRecalculation.
    rewrite (cancel_debounced _ Hd). cbn.
    repeat split; [lia | eauto | lia].
  - unfold Accordion.timeoutRuns in Hstep.
    destruct (find _ (Accordion.timeouts st)) as [[h s]|] eqn:Hf; [|discriminate].
    injection Hstep as <- <-. unfold Accordion.debounced in Hd.
    destruct (Accordion.accordionRecalcTimeout st) as [h0|].
    + destruct Hd as (Hlt & s0 & Ht). rewrite Ht in *. cbn in Hf.
      destruct (h0 =? handle)%nat eqn:E; [|discriminate]. injection Hf as <- <-.
      cbn. rewrite E. cbn. repeat split; lia.
    + rewrite Hd in Hf. discriminate.
  - injection Hstep as <- <-. rewrite (cancel_debounced _ Hd). cbn.
    repeat split; lia.
  - injection Hstep as <- <-. unfold Accordion.cleanup.
    rewrite (cancel_debounced _ Hd), iter_cancel. cbn.
    repeat split; lia.
Qed.

Lemma debounced_run (events : list Accordion.Event) :
  forall (st st' : Accordion.State) (recalculated : list string),
  Accordion.debounced st ->
  Accordion.run events st = Some (st', recalculated) ->
  Accordion.debounced st' /\
  Accordion.cleanupTasks st' = Accordion.scheduled events (Accordion.cleanupTasks st) /\
  (List.length recalculated + List.length (Accordion.timeouts st')
   <= Accordion.calls events + List.length (Accordion.timeouts st))%nat.
Proof.
  induction events as [|e rest IH]; intros st st' r Hd Hrun; cbn [Accordion.run] in Hrun.
  - injection Hrun as <- <-. cbn. repeat split; [assumption | lia].
  - destruct (Accordion.step e st) as [[st1 r1]|] eqn:Hstep; [|discriminate].
    destruct (Accordion.run rest st1) as [[st2 r2]|] eqn:Hrest; [|discriminate].
    injection Hrun as <- <-.
    destruct (debounced_step _ _ _ _ Hd Hstep) as (Hd1 & Hn1 & Hl1).
    destruct (IH _ _ _ Hd1 Hrest) as (Hd2 & Hn2 & Hl2).
    split; [assumption|]. split.
    + rewrite Hn2, Hn1. destruct e; reflexivity.
    + rewrite length_app.
      assert (Accordion.calls (e :: rest) = Accordion.calls [e] + Accordion.calls rest)%nat
        as -> by (unfold Accordion.calls; cbn; destruct e; reflexivity).
      lia.
Qed.

Lemma debounced_length (st : Accordion.State) :
  Accordion.debounced st -> (List.length (Accordion.timeouts st) <= 1)%nat.
Proof.
  unfold Accordion.debounced. destruct (Accordion.accordionRecalcTimeout st).
  - intros (_ & s & ->). cbn. lia.
  - intros ->. cbn. lia.
Qed.

Lemma schedule_burst (sections : list string) :
  forall (st : Accordion.State) (s : string),
  Accordion.debounced st ->
  Accordion.run (map Accordion.Schedule (sections ++ [s])) st =
    Some (Accordion.mkState (Some (Accordion.nextHandle st + List.length sections)%nat)
                            [((Accordion.nextHandle st + List.length sections)%nat, s)]
                            (Accordion.cleanupTasks st + S (List.length sections))
                            (S (Accordion.nextHandle st + List.length sections)),
          []).
Proof.
  induction sections as [|s0 rest IH]; intros st s Hd.
  - cbn. unfold Accordion.scheduleAccordionRecalculation.
    rewrite (cancel_debounced _ Hd). cbn.
    now rewrite Nat.add_0_r, Nat.add_1_r.
  - cbn [app map Accordion.run Accordion.step].
    assert (Accordion.debounced (Accordion.scheduleAccordionRecalculation s0 st)) as Hd1.
    { apply (debounced_step (Accordion.Schedule s0) st _ [] Hd eq_refl). }
    rewrite (IH _ s Hd1).
    unfold Accordion.scheduleAccordionRecalculation.
    rewrite (cancel_debounced _ Hd). cbn.
    do 3 f_equal; [f_equal; lia | do 2 f_equal; lia | lia | lia].
Qed.

(** X15 — The accordion recalculation is debounced.  However the calls
    of [scheduleAccordionRecalculation], the timeouts, [stopPeriodicRefresh]
    and [cleanup] follow one another on a new manager, at most one timeout
    waits at any time and it is the one the manager remembers, and there
    are never more recalculations, done or waiting, than calls.  Calls made
    one after the other before the timeout runs leave one timeout, for the
    section named last: the earlier sections are not recalculated.
    [_cleanupTasks] holds one entry for each call since the last
    [cleanup], whether or not its timeout has run. *)
Theorem accordion_debounced (events : list Accordion.Event) (st : Accordion.State)
        (recalculated : list string) :
  Accordion.run events Accordion.initial = Some (st, recalculated) ->
  Accordion.debounced st /\
  (List.length (Accordion.timeouts st) <= 1)%nat /\
  (List.length recalculated + List.length (Accordion.timeouts st)
   <= Accordion.calls events)%nat /\
  Accordion.cleanupTasks st = Accordion.scheduled events 0 /\
  forall (sections : list string) (last : string),
    exists st' handle,
      Accordion.run (map Accordion.Schedule (sections ++ [last])) st = Some (st', []) /\
      Accordion.timeouts st' = [(handle, last)] /\
      Accordion.timeoutRuns handle st' =
        Some (Accordion.mkState None [] (Accordion.cleanupTasks st') (Accordion.nextHandle st'),
              [last]) /\
      Accordion.cleanupTasks st' =
        (Accordion.cleanupTasks st + List.length (sections ++ [last]))%nat.
Proof.
  intros Hrun.
  assert (Accordion.debounced Accordion.initial) as H0 by reflexivity.
  destruct (debounced_run _ _ _ _ H0 Hrun) as (Hd & Hn & Hl).
  split; [assumption|]. split; [now apply debounced_length|].
  split; [cbn in Hl; lia|]. split; [assumption|].
  intros sections last. do 2 eexists.
  rewrite (schedule_burst sections st last Hd).
  split; [reflexivity|]. cbn [Accordion.timeouts Accordion.cleanupTasks Accordion.nextHandle].
  split; [reflexivity|]. split.
  - unfold Accordion.timeoutRuns. cbn. now rewrite Nat.eqb_refl.
  - rewrite length_app. cbn. lia.
Qed.

Lemma accordion_debounced_witness :
  exists st recalculated,
    Accordion.run [Accordion.Schedule "jobsList"; Accordion.Schedule "embeddingPanel";
                   Accordion.TimeoutRuns 2; Accordion.Schedule "jobsList"]
                  Accordion.initial = Some (st, recalculated) /\
    recalculated = ["embeddingPanel"] /\
    Accordion.cleanupTasks st = 3%nat /\
    (List.length (Accordion.timeouts st) <= 1)%nat.
Proof.
  destruct (Accordion.run [Accordion.Schedule "jobsList"; Accordion.Schedule "embeddingPanel";
                           Accordion.TimeoutRuns 2; Accordion.Schedule "jobsList"]
                          Accordion.initial) as [[st recalculated]|] eqn:Hrun;
    [|vm_compute in Hrun; discriminate].
  exists st, recalculated. split; [reflexivity|].
  pose proof (accordion_debounced _ _ _ Hrun) as (_ & Hlen & _ & Htasks & _).
  vm_compute in Hrun. injection Hrun as <- <-.
  split; [reflexivity|]. split; [exact Htasks | exact Hlen].
Defined.

Lemma of_effects_app (changed : bool) (e1 e2 : list Effect) :
  Accordion.of_effects changed (e1 ++ e2) =
  (Accordion.of_effects changed e1 ++ Accordion.of_effects changed e2)%list.
Proof. apply flat_map_app. Qed.

(** X16 — A poll that re-arms the timer loses the accordion
    recalculation.  [optimizeRefreshInterval] begins with
    [stopPeriodicRefresh], which clears the accordion timeout too; in
    [loadJobs] it runs after the render, in the same turn.  So when a
    response changes whether jobs are active, and on every 404 that shows
    the empty state, the recalculation that the render has just scheduled
    is cancelled before it can run, together with any that was waiting.
    Only a poll that renders and leaves the cadence alone gets the height
    of the list recalculated. *)
Theorem recalculation_cancelled (st : State) (a : Accordion.State) (changed : bool)
        (status : Z) (jobs : list Job.t) (body : Body) :
  Accordion.debounced a -> ok status = true -> forallb has_id jobs = true ->
  (exists a',
      Accordion.run
        (Accordion.of_effects changed
           (snd (exec (loadJobs_resume (Responded status (JobArray jobs))) st))) a
      = Some (a', []) /\
      Accordion.timeouts a' =
        if negb (Bool.eqb (hasActiveJobs st) (anyActive jobs)) then []
        else if differs (lastJobsHash st) (jobsHash jobs) && changed
             then [(Accordion.nextHandle a, "jobsList")]
             else Accordion.timeouts a) /\
  (exists a',
      Accordion.run
        (Accordion.of_effects changed
           (snd (exec (loadJobs_resume (Responded 404 body)) st))) a
      = Some (a', []) /\
      Accordion.timeouts a' =
        if differs (lastJobsHash st) emptyHash then [] else Accordion.timeouts a).
Proof.
  intros Hd Hok Hid. split.
  - rewrite (resume_found st status jobs Hok Hid). cbn [snd].
    assert (Accordion.of_effects changed
              (RenderJobs jobs :: match jobs with [] => [RenderEmptyState] | _ => [] end) =
            if changed then [Accordion.Schedule "jobsList"] else []) as Hrender.
    { destruct jobs as [|j jobs']; [now destruct changed|].
      destruct (renderJobs_conforming _ Hid) as [content Hr].
      unfold Accordion.of_effects. cbn [flat_map]. unfold Accordion.of_effect.
      rewrite Hr. now rewrite app_nil_r. }
    rewrite !of_effects_app.
    assert (forall (b : bool) (l : list Effect),
              Accordion.of_effects changed (if b then l else []) =
            if b then Accordion.of_effects changed l else []) as Hif
      by (now intros []).
    rewrite !Hif, Hrender, ?of_effects_app.
    assert (Accordion.of_effects changed
              match refreshInterval st with Some _ => [ClearInterval] | None => [] end = [])
      as -> by (now destruct (refreshInterval st)).
    cbn [Accordion.of_effects flat_map Accordion.of_effect app].
    pose proof (cancel_debounced _ Hd) as Hc.
    destruct (differs (lastJobsHash st) (jobsHash jobs)), changed,
      (negb (Bool.eqb (hasActiveJobs st) (anyActive jobs))),
      (existsb (Job.status_is "completed") jobs);
      cbn [app Accordion.run Accordion.step andb];
      unfold Accordion.scheduleAccordionRecalculation; rewrite ?Hc;
      cbn [Accordion.cancel Accordion.accordionRecalcTimeout Accordion.timeouts
           Accordion.clearTimeout filter app fst negb Accordion.nextHandle
           Accordion.cleanupTasks];
      rewrite ?Nat.eqb_refl; cbn [negb app];
      eexists; (split; [reflexivity|]); reflexivity.
  - rewrite resume_notFound.
    pose proof (cancel_debounced _ Hd) as Hc.
    destruct (differs (lastJobsHash st) emptyHash); cbn [snd].
    + rewrite !of_effects_app.
      assert (Accordion.of_effects changed
                match refreshInterval st with Some _ => [ClearInterval] | None => [] end = [])
        as -> by (now destruct (refreshInterval st)).
      cbn [Accordion.of_effects flat_map Accordion.of_effect app].
      destruct changed; cbn [app Accordion.run Accordion.step];
        unfold Accordion.scheduleAccordionRecalculation; rewrite ?Hc;
        cbn [Accordion.cancel Accordion.accordionRecalcTimeout Accordion.timeouts
             Accordion.clearTimeout filter app fst negb Accordion.nextHandle
             Accordion.cleanupTasks];
        rewrite ?Nat.eqb_refl; cbn [negb app];
        eexists; (split; [reflexivity|]); reflexivity.
    + cbn. eexists; split; reflexivity.
Qed.

Lemma recalculation_cancelled_witness :
  Accordion.debounced Accordion.initial /\
  ok 200 = true /\
  forallb has_id [runningA] = true /\
  exists a',
    Accordion.run
      (Accordion.of_effects true
         (snd (exec (loadJobs_resume (Responded 200 (JobArray [runningA]))) constructed)))
      Accordion.initial = Some (a', []) /\
    Accordion.timeouts a' = [].
Proof.
  assert (Accordion.debounced Accordion.initial) as Hd by reflexivity.
  assert (ok 200 = true) as Hok by reflexivity.
  assert (forallb has_id [runningA] = true) as Hid by reflexivity.
  repeat (split; [assumption|]).
  destruct (recalculation_cancelled constructed Accordion.initial true 200 [runningA]
              (NotJobs "SyntaxError") Hd Hok Hid) as [(a' & Hrun & Ht) _].
  exists a'. split; [exact Hrun | exact Ht].
Defined.

(** ** Two answers for no jobs *)

Lemma poll_empty_array (st st' : State) (effects : list Effect) :
  aborted st = false ->
  run (poll (found [])) st = Some (st', effects) ->
  aborted st' = false /\
  lastJobsHash st' = Some (jobsHash []) /\
  count is_empty_render effects =
    (if differs (lastJobsHash st) (jobsHash []) then 1 else 0)%nat.
Proof.
  intros Hab Hrun.
  destruct (run_poll _ _ _ _ Hab Hrun) as (st0 & pre & post & Hv & Hpre & He & ->).
  destruct Hv as (Hri & Hh & Ha & Hab0 & Hc).
  unfold found in He. rewrite resume_found in He by reflexivity.
  injection He as <- <-. fields. rewrite Hab0, Hh.
  repeat split; auto; destruct Hpre as [-> | ->]; cbn [app]; count_effects.
Qed.

Lemma poll_notFound_arms (st st' : State) (body : Body) (effects : list Effect) :
  aborted st = false ->
  run (poll (Responded 404 body)) st = Some (st', effects) ->
  count is_arming effects = (if differs (lastJobsHash st) emptyHash then 1 else 0)%nat.
Proof.
  intros Hab Hrun.
  destruct (run_poll _ _ _ _ Hab Hrun) as (st0 & pre & post & Hv & Hpre & He & ->).
  destruct Hv as (Hri & Hh & Ha & Hab0 & Hc).
  rewrite resume_notFound, Hh in He.
  destruct (differs (lastJobsHash st) emptyHash) eqn:Hd; injection He as <- <-;
    destruct Hpre as [-> | ->]; cbn [app]; count_effects.
Qed.

(** X17 — The two answers that mean "no jobs" do not share a
    fingerprint.  An empty array is stored as the fingerprint of [[]], a
    404 as ['empty'].  So when the server goes from one answer to the
    other, the poll renders the empty state again, although the page shows
    it already; the 404 also restarts the timer. *)
Theorem empty_views_alternate (st st' : State) (effects : list Effect) :
  aborted st = false ->
  run (polls [found []; notFound; found []]) st = Some (st', effects) ->
  exists st1 st2 first second third,
    run (poll (found [])) st = Some (st1, first) /\
    run (poll notFound) st1 = Some (st2, second) /\
    run (poll (found [])) st2 = Some (st', third) /\
    effects = (first ++ second ++ third)%list /\
    count is_empty_render second = 1%nat /\
    count is_arming second = 1%nat /\
    count is_empty_render third = 1%nat.
Proof.
  intros Hab Hrun.
  change (polls [found []; notFound; found []])
    with (poll (found []) ++ poll notFound ++ poll (found []))%list in Hrun.
  destruct (run_app _ _ _ _ _ Hrun) as (st1 & first & rest & H1 & Hrest & ->).
  destruct (run_app _ _ _ _ _ Hrest) as (st2 & second & third & H2 & H3 & ->).
  destruct (poll_empty_array _ _ _ Hab H1) as (Hab1 & Hh1 & _).
  destruct (poll_notFound _ _ _ _ Hab1 H2) as (Hab2 & Hh2 & Hc2 & _).
  pose proof (poll_notFound_arms _ _ _ _ Hab1 H2) as Ha2.
  destruct (poll_empty_array _ _ _ Hab2 H3) as (_ & _ & Hc3).
  rewrite Hh1 in Hc2, Ha2. rewrite Hh2 in Hc3.
  exists st1, st2, first, second, third.
  repeat split; assumption.
Qed.

Lemma empty_views_alternate_witness :
  exists st' effects,
    run (polls [found []; notFound; found []]) fresh = Some (st', effects) /\
    count is_empty_render effects = 3%nat.
Proof.
  destruct (run (polls [found []; notFound; found []]) fresh) as [[st' effects]|] eqn:Hrun;
    [|vm_compute in Hrun; discriminate].
  exists st', effects. split; [reflexivity|].
  destruct (empty_views_alternate fresh st' effects eq_refl Hrun)
    as (st1 & st2 & first & second & third & _ & _ & _ & _ & _ & _ & _).
  vm_compute in Hrun. injection Hrun as <- <-. reflexivity.
Defined.

(** ** Recalculating the embeddings *)

(** X18 — How a recalculation of the embeddings ends.  Once the POST has
    settled, [handleRecalculateEmbeddings] shows exactly one notification
    and always ends by enabling the button again.  The interval that
    animates the progress is started only after the response has arrived,
    and it is cleared in every case but one: when a 2xx response has a body
    that does not parse, the [catch] block runs with the interval still
    alive, and nothing stops it afterwards.  The accordion is recalculated
    at once exactly on the failures; a success hides the progress three
    seconds later instead. *)
Theorem embeddings_outcome (r : Embeddings.Settled) :
  let actions := Embeddings.resume r in
  (exists before, actions = (before ++ [Embeddings.EnableButton])%list /\
                  ~ In Embeddings.EnableButton before) /\
  List.length (filter Embeddings.is_notify actions) = 1%nat /\
  (List.length (filter Embeddings.is_set actions) =
   match r with Embeddings.Rejected _ => 0 | _ => 1 end)%nat /\
  (List.length (filter Embeddings.is_clear actions) =
   match r with
   | Embeddings.NotOk _ | Embeddings.Ok (Embeddings.Parsed _) => 1
   | _ => 0
   end)%nat /\
  (List.length (filter Embeddings.is_set actions) =
   List.length (filter Embeddings.is_clear actions) <->
   forall message, r <> Embeddings.Ok (Embeddings.Unparsable message)) /\
  (In (Embeddings.Schedule "embeddingPanel") actions <->
   forall n, r <> Embeddings.Ok (Embeddings.Parsed n)) /\
  (In (Embeddings.SetTimeout 3000) actions <->
   exists n, r = Embeddings.Ok (Embeddings.Parsed n)).
Proof.
  intros actions. subst actions. unfold Embeddings.resume. split.
  - eexists. split; [reflexivity|].
    destruct r as [m | [d | m] | [n | m]]; cbn; intuition discriminate.
  - destruct r as [m | [d | m] | [n | m]]; cbn;
      (split; [reflexivity|]); (split; [reflexivity|]); (split; [reflexivity|]);
      repeat split; intros;
      try discriminate; try congruence; try (now left); try tauto;
      try (eexists; reflexivity);
      try (match goal with
           | H : forall x, _ <> _ |- _ => exfalso; eapply H; reflexivity
           | H : exists x, _ = _ |- _ => destruct H; discriminate
           end);
      try (cbn in *; intuition (try discriminate; try congruence)).
Qed.
